(** * AliTVSTree: the line query engine and density rasterizer of
      [src/pixels/kdtree/index.js], embedded in Rocq.

    Conventions of the embedding.
    - A JavaScript number is a [num]: an exact rational, one of the two
      infinities, or NaN.  Comparisons follow IEEE 754 (every comparison
      with NaN is false).  Rounding of doubles and the sign of zero are
      not represented.
    - Array indices, loop counters and lengths are integers ([Z]); the
      [>>] operator goes through the 32-bit conversion of its operand.
    - A JavaScript exception is a [Throw] in the [result] type; methods of
      the class thread the instance through a state monad [M].
    - [KDTree], [getClosestPointOnLines] and [brensenhamArr] are imported
      by the source file from modules that are not part of it, and
      [Math.atan] is a library function: the four are parameters of the
      development.
    - [mix] is called by the source file without being defined or
      imported there.  The development takes the binding of that
      identifier as a parameter: [None] is the file as it is, where each
      call of [mix] is a [ReferenceError]; [Some f] is a host that defines
      a global function of that name. *)

From Stdlib Require Import ZArith QArith Qcanon Qround Lia Lqa String.
From stdpp Require Import base list.

Set Default Proof Using "Type".
Local Open Scope Z_scope.

(** ** Numbers *)

Inductive num : Type :=
  | NaN
  | NInf
  | Fin (q : Qc)
  | PInf.

Definition ofZ (z : Z) : num := Fin (Q2Qc (inject_Z z)).

(** Three-way comparison; [None] when an operand is NaN. *)
Definition ncmp (a b : num) : option comparison :=
  match a, b with
  | NaN, _ | _, NaN => None
  | NInf, NInf => Some Eq
  | NInf, _ => Some Lt
  | _, NInf => Some Gt
  | PInf, PInf => Some Eq
  | PInf, _ => Some Gt
  | _, PInf => Some Lt
  | Fin p, Fin q => Some (p ?= q)%Qc
  end.

(** [a < b], [a > b], [a <= b], [a >= b] of JavaScript. *)
Definition nlt (a b : num) : bool :=
  match ncmp a b with Some Lt => true | _ => false end.
Definition ngt (a b : num) : bool :=
  match ncmp a b with Some Gt => true | _ => false end.
Definition nle (a b : num) : bool :=
  match ncmp a b with Some Lt | Some Eq => true | _ => false end.
Definition nge (a b : num) : bool :=
  match ncmp a b with Some Gt | Some Eq => true | _ => false end.

Definition is_nan (a : num) : bool :=
  match a with NaN => true | _ => false end.

Definition Qc_sign (q : Qc) : comparison := (q ?= 0)%Qc.

Definition nneg (a : num) : num :=
  match a with
  | NaN => NaN
  | NInf => PInf
  | Fin q => Fin (- q)%Qc
  | PInf => NInf
  end.

Definition nadd (a b : num) : num :=
  match a, b with
  | NaN, _ | _, NaN => NaN
  | PInf, NInf | NInf, PInf => NaN
  | PInf, _ | _, PInf => PInf
  | NInf, _ | _, NInf => NInf
  | Fin p, Fin q => Fin (p + q)%Qc
  end.

Definition nsub (a b : num) : num := nadd a (nneg b).

Definition inf_of_sign (c : comparison) : num :=
  match c with Lt => NInf | Eq => NaN | Gt => PInf end.

Definition sign_mul (c d : comparison) : comparison :=
  match c, d with
  | Eq, _ | _, Eq => Eq
  | Lt, Lt | Gt, Gt => Gt
  | _, _ => Lt
  end.

Definition nsign (a : num) : option comparison := ncmp a (Fin 0%Qc).

Definition nmul (a b : num) : num :=
  match a, b with
  | NaN, _ | _, NaN => NaN
  | Fin p, Fin q => Fin (p * q)%Qc
  | _, _ =>
      match nsign a, nsign b with
      | Some c, Some d => inf_of_sign (sign_mul c d)
      | _, _ => NaN
      end
  end.

(** Division; a zero divisor is taken as the positive zero. *)
Definition ndiv (a b : num) : num :=
  match a, b with
  | NaN, _ | _, NaN => NaN
  | Fin p, Fin q =>
      match Qc_sign q with
      | Eq => inf_of_sign (Qc_sign p)
      | _ => Fin (p / q)%Qc
      end
  | Fin _, _ => Fin 0%Qc
  | _, Fin q =>
      match nsign a, Qc_sign q with
      | Some c, Lt => inf_of_sign (sign_mul c Lt)
      | Some c, _ => inf_of_sign c
      | None, _ => NaN
      end
  | _, _ => NaN
  end.

(** [Math.abs], [Math.max], [Math.ceil], [Math.round]. *)
Definition nabs (a : num) : num :=
  match a with
  | NaN => NaN
  | NInf | PInf => PInf
  | Fin q => Fin (match Qc_sign q with Lt => - q | _ => q end)%Qc
  end.

Definition nmax (a b : num) : num :=
  match ncmp a b with
  | None => NaN
  | Some Lt => b
  | Some _ => a
  end.

Definition nceil (a : num) : num :=
  match a with
  | Fin q => ofZ (Qceiling q)
  | _ => a
  end.

Definition nround (a : num) : num :=
  match a with
  | Fin q => ofZ (Qfloor (q + Q2Qc (1 # 2))%Qc)
  | _ => a
  end.

(** ** Exceptions *)

Inductive error : Type := TypeError | RangeError | ReferenceError | OutOfFuel.

Inductive result (A : Type) : Type :=
  | Ok (a : A)
  | Throw (e : error).
Arguments Ok {A} a.
Arguments Throw {A} e.

Definition rbind {A B} (m : result A) (k : A -> result B) : result B :=
  match m with
  | Ok a => k a
  | Throw e => Throw e
  end.

Notation "'let*' x ':=' m 'in' k" := (rbind m (fun x => k))
  (at level 10, x name, m at level 100, k at level 200).

(** [.filter(f)] with a callback that may throw. *)
Fixpoint filterR {A} (f : A -> result bool) (l : list A) : result (list A) :=
  match l with
  | [] => Ok []
  | a :: l' =>
      let* b := f a in
      let* r := filterR f l' in
      Ok (if b then a :: r else r)
  end.

(** [.map(f)] with a callback that may throw. *)
Fixpoint mapR {A B} (f : A -> result B) (l : list A) : result (list B) :=
  match l with
  | [] => Ok []
  | a :: l' =>
      let* b := f a in
      let* r := mapR f l' in
      Ok (b :: r)
  end.

(** ** Raw data *)

Inductive value : Type :=
  | VUndefined
  | VNum (n : num)
  | VStr (s : string).

(** A record of a line: the pixel coordinates read as [.x] and [.y], and
    the fields as [point[field]] reads them.  The coordinates are finite
    numbers: a record whose x or y is missing or is not a number is
    outside the embedding.  In the source [.x] is [point["x"]]; the
    embedding does not tie [px] and [py] to what [attr] gives for these
    two names, and every property holds whatever that is. *)
Record Datum : Type := mkDatum {
  px : Qc;
  py : Qc;
  attr : string -> value;
}.

Definition Line : Type := list Datum.

(** [a[i]] for an integer [i]: [None] stands for [undefined]. *)
Definition at_ {A} (a : list A) (i : Z) : option A :=
  if i <? 0 then None else a !! Z.to_nat i.

(** Reading a property of [undefined] throws. *)
Definition deref {A} (o : option A) : result A :=
  match o with
  | Some a => Ok a
  | None => Throw TypeError
  end.

(** [z >> 1]: conversion to a signed 32-bit integer, then the shift. *)
Definition to_int32 (z : Z) : Z := (z + 2 ^ 31) mod 2 ^ 32 - 2 ^ 31.
Definition sar1 (z : Z) : Z := Z.shiftr (to_int32 z) 1.

(** ** The refinement predicates of [getPixelData]

    The callbacks given to [.filter] in the four geometric cases.  The
    three brush cases are the same text with different constants for the
    bounds, so one definition, [brushFilter], serves them all. *)

(** [while (l <= r) { mid = (l + r) >> 1;
       if (line[mid].x >= minX) { lp = mid; r = mid - 1; } else l = mid + 1; }] *)
Fixpoint search_lp (fuel : nat) (line : Line) (minX : num) (l r lp : Z)
  : result Z :=
  match fuel with
  | O => Throw OutOfFuel
  | S fuel' =>
      if l <=? r then
        let mid := sar1 (l + r) in
        let* p := deref (at_ line mid) in
        if nge (Fin (px p)) minX
        then search_lp fuel' line minX l (mid - 1) mid
        else search_lp fuel' line minX (mid + 1) r lp
      else Ok lp
  end.

(** [while (l <= r) { mid = (l + r) >> 1;
       if (line[mid].x <= maxX) { rp = mid; l = mid + 1; } else { r = mid - 1; } }] *)
Fixpoint search_rp (fuel : nat) (line : Line) (maxX : num) (l r rp : Z)
  : result Z :=
  match fuel with
  | O => Throw OutOfFuel
  | S fuel' =>
      if l <=? r then
        let mid := sar1 (l + r) in
        let* p := deref (at_ line mid) in
        if nle (Fin (px p)) maxX
        then search_rp fuel' line maxX (mid + 1) r mid
        else search_rp fuel' line maxX l (mid - 1) rp
      else Ok rp
  end.

(** The two searches as the callbacks run them: from [l = 0] and
    [r = line.length - 1], with [lp = 0] and [rp = r] to start with.  Each
    iteration shortens the interval from [l] to [r], or throws, so one
    more than the length of the line is fuel enough. *)
Definition find_lp (line : Line) (minX : num) : result Z :=
  search_lp (S (length line)) line minX 0 (Z.of_nat (length line) - 1) 0.

Definition find_rp (line : Line) (maxX : num) : result Z :=
  search_rp (S (length line)) line maxX 0 (Z.of_nat (length line) - 1)
            (Z.of_nat (length line) - 1).

(** [for (let i = lp; i <= rp; i++)
       if (line[i].y < minY || line[i].y > maxY) return false;]
    run for [n] iterations from [i]; [true] when the loop falls through. *)
Fixpoint scan_y (n : nat) (line : Line) (minY maxY : num) (i : Z)
  : result bool :=
  match n with
  | O => Ok true
  | S n' =>
      let* p := deref (at_ line i) in
      if nlt (Fin (py p)) minY || ngt (Fin (py p)) maxY then Ok false
      else scan_y n' line minY maxY (i + 1)
  end.

Section Refinement.

(** What the identifier [mix] is bound to where the callbacks run.  The
    source file neither defines nor imports it: as the file is, the
    binding is [None].  [Some f] stands for a global function [mix] with
    [f a b x] for [mix(a, b, x).y]; it reads the coordinates of its two
    points, so an [undefined] point is a [TypeError]. *)
Variable mix : option (Datum -> Datum -> num -> num).

(** [tmpY = mix(line[i], line[j], atX).y;
     if (tmpY < minY || tmpY > maxY) return false;]
    [true] when the test lets the callback go on.  The call looks the
    identifier up before it evaluates the arguments: unbound, it is a
    [ReferenceError] whatever the two points are. *)
Definition crossing (line : Line) (i j : Z) (atX minY maxY : num)
  : result bool :=
  match mix with
  | None => Throw ReferenceError
  | Some f =>
      let* a := deref (at_ line i) in
      let* b := deref (at_ line j) in
      let tmpY := f a b atX in
      Ok (negb (nlt tmpY minY || ngt tmpY maxY))
  end.

(** The callback; both calls of [mix] are given [minX], as in the
    source. *)
Definition brushFilter (line : Line) (minX minY maxX maxY : num)
  : result bool :=
  let len := Z.of_nat (length line) in
  let* lp := find_lp line minX in
  let* rp := find_rp line maxX in
  let* inside := scan_y (Z.to_nat (rp - lp + 1)) line minY maxY lp in
  if negb inside then Ok false else
  let* left :=
    (if lp =? 0 then Ok true
     else crossing line (lp - 1) lp minX minY maxY) in
  if negb left then Ok false else
  if rp <? len - 1 then crossing line rp (rp + 1) minX minY maxY
  else Ok true.

End Refinement.

Section Angular.

(** [Math.atan]. *)
Variable atan : num -> num.

(** [Math.atan((b.y - a.y) / (b.x - a.x))]. *)
Definition segment_angle (a b : Datum) : num :=
  atan (ndiv (nsub (Fin (py b)) (Fin (py a)))
             (nsub (Fin (px b)) (Fin (px a)))).

(** [for (let i = lp; i < rp; i++) {
       ang = Math.atan((line[i + 1].y - line[i].y) / (line[i + 1].x - line[i].x));
       if (ang < angMin || ang > angMax) return false; }]
    run for [n] iterations from [i]. *)
Fixpoint scan_ang (n : nat) (line : Line) (angMin angMax : num) (i : Z)
  : result bool :=
  match n with
  | O => Ok true
  | S n' =>
      let* b := deref (at_ line (i + 1)) in
      let* a := deref (at_ line i) in
      let ang := segment_angle a b in
      if nlt ang angMin || ngt ang angMax then Ok false
      else scan_ang n' line angMin angMax (i + 1)
  end.

(** The angle test of a boundary segment: [a] is the point subtracted,
    [b] the point it is subtracted from. *)
Definition boundary_ang (line : Line) (ia ib : Z) (angMin angMax : num)
  : result bool :=
  let* b := deref (at_ line ib) in
  let* a := deref (at_ line ia) in
  let ang := segment_angle a b in
  Ok (negb (nlt ang angMin || ngt ang angMax)).

Definition angularFilter (line : Line) (minX angMin maxX angMax : num)
  : result bool :=
  let len := Z.of_nat (length line) in
  let* first := deref (at_ line 0) in
  if ngt (Fin (px first)) maxX then Ok false else
  let* last := deref (at_ line (len - 1)) in
  if nlt (Fin (px last)) minX then Ok false else
  let* lp := find_lp line minX in
  let* rp := find_rp line maxX in
  let* inside := scan_ang (Z.to_nat (rp - lp)) line angMin angMax lp in
  if negb inside then Ok false else
  let* left :=
    (if lp =? 0 then Ok true
     else boundary_ang line lp (lp - 1) angMin angMax) in
  if negb left then Ok false else
  if rp <? len - 1 then boundary_ang line rp (rp + 1) angMin angMax
  else Ok true.

End Angular.

(** ** The collaborators *)

Definition Point2 : Type := (num * num)%type.

(** An element of the array that [knn] returns; only [.id] is read. *)
Record KnnHit : Type := mkHit { hit_id : nat }.

(** The spatial index, through the four queries the class calls. *)
Record KDTree : Type := mkKDTree {
  knn : Point2 -> Z -> list KnnHit;
  rnn : Point2 -> num -> list nat;
  brush : Point2 -> Point2 -> list nat;
  angular : Point2 -> Point2 -> list nat;
}.

(** A scale: [scale(v)] and the pixel range, read as the array
    [scale.range], in whole pixels. *)
Record Scale : Type := mkScale {
  scale : value -> num;
  range : list Z;
}.

(** One pixel of the accumulator: the entries of the object, keyed by line
    identity. *)
Definition Cell : Type := list (nat * num).
Definition Cache : Type := list (list Cell).

Record AliTVSTree : Type := mkTree {
  _kdtree : KDTree;
  _raw : list Line;
  _xScale : Scale;
  _yScale : Scale;
  _xField : string;
  _yField : string;
  _slopePixelCache : option Cache;
}.

(** ** The method monad: the instance is threaded through every call, and
    an exception leaves it as it was when the exception was raised. *)

Definition M (A : Type) : Type := AliTVSTree -> result A * AliTVSTree.

Definition ret {A} (a : A) : M A := fun t => (Ok a, t).

Definition bind {A B} (m : M A) (k : A -> M B) : M B :=
  fun t =>
    match m t with
    | (Ok a, t') => k a t'
    | (Throw e, t') => (Throw e, t')
    end.

Definition lift {A} (r : result A) : M A := fun t => (r, t).

(** [this.field] *)
Definition read {A} (field : AliTVSTree -> A) : M A :=
  fun t => (Ok (field t), t).

(** [this._slopePixelCache = cache] *)
Definition set_slopePixelCache (cache : Cache) : M unit :=
  fun t =>
    (Ok tt,
     {| _kdtree := _kdtree t; _raw := _raw t;
        _xScale := _xScale t; _yScale := _yScale t;
        _xField := _xField t; _yField := _yField t;
        _slopePixelCache := Some cache |}).

Notation "'do' x '<~' m ';' k" := (bind m (fun x => k))
  (at level 10, x name, m at level 100, k at level 200).

(** SameValueZero, the equality of [Array.prototype.includes]. *)
Definition num_eqb (a b : num) : bool :=
  match a, b with
  | NaN, NaN | NInf, NInf | PInf, PInf => true
  | Fin p, Fin q => Qeq_bool p q
  | _, _ => false
  end.

Definition value_eqb (a b : value) : bool :=
  match a, b with
  | VUndefined, VUndefined => true
  | VNum m, VNum n => num_eqb m n
  | VStr s, VStr u => String.eqb s u
  | _, _ => false
  end.

Definition includes (values : list value) (v : value) : bool :=
  existsb (value_eqb v) values.

(** [a.slice(0, n)] for an integer [n]. *)
Definition slice0 {A} (a : list A) (n : Z) : list A :=
  if 0 <=? n then take (Z.to_nat n) a
  else take (Z.to_nat (Z.of_nat (length a) + n)) a.

(** ** The class *)

Inductive FilterOption : Type :=
  | BrushBox (lowX lowY highX highY : num)
  | BrushX (lowX highX : num)
  | BrushY (lowY highY : num)
  | AngularOpt (lowX lowSlope highX highSlope : num)
  | AttrOpt (field : string) (values : list value).

Record CrossPoints : Type := mkCross {
  position : Point2;
  data : Line;
  dataToPoint : list Point2;
}.

Record HoverLines : Type := mkHover {
  hover_position : Point2;
  hover_data : list (option Line);
}.

Section Class.

(** [new KDTree(pixelLevelData)] *)
Variable new_KDTree : list (list Point2) -> KDTree.
(** [getClosestPointOnLines(p, points)] *)
Variable getClosestPointOnLines : Point2 -> list Point2 -> Point2.
(** The binding of the identifier [mix]; [None] in the file as it is. *)
Variable mix : option (Datum -> Datum -> num -> num).
(** [Math.atan] *)
Variable atan : num -> num.

Definition toPixel (xScale yScale : Scale) (xField yField : string)
    (point : Datum) : Point2 :=
  (scale xScale (attr point xField), scale yScale (attr point yField)).

Definition constructor (data : list Line) (xField yField : string)
    (xScale yScale : Scale) : AliTVSTree :=
  let pixelLevelData := map (map (toPixel xScale yScale xField yField)) data in
  {| _kdtree := new_KDTree pixelLevelData; _raw := data;
     _xScale := xScale; _yScale := yScale;
     _xField := xField; _yField := yField;
     _slopePixelCache := None |}.

Definition getCrossPoints (x y : num) : M CrossPoints :=
  do kdtree <~ read _kdtree;
  do hit <~ lift (deref (at_ (knn kdtree (x, y) 1) 0));
  let index := hit_id hit in
  do raw <~ read _raw;
  do data <~ lift (deref (raw !! index));
  do xScale <~ read _xScale;
  do yScale <~ read _yScale;
  do xField <~ read _xField;
  do yField <~ read _yField;
  let dataToPoint := map (toPixel xScale yScale xField yField) data in
  let closestPoint := getClosestPointOnLines (x, y) dataToPoint in
  ret {| position := closestPoint; data := data;
         dataToPoint := dataToPoint |}.

Definition getHoverLines (x y r : num) (topN : Z) : M HoverLines :=
  do kdtree <~ read _kdtree;
  let indices := slice0 (rnn kdtree (x, y) r) topN in
  do raw <~ read _raw;
  ret {| hover_position := (x, y);
         hover_data := map (fun index => raw !! index) indices |}.

(** [candidates.filter((id) => { const line = this._raw[id]; ... })] followed
    by [indices.map((index) => this._raw[index])]. *)
Definition refine (raw : list Line) (accept : Line -> result bool)
    (candidates : list nat) : result (list Line) :=
  let* indices :=
    filterR (fun id => let* line := deref (raw !! id) in accept line)
            candidates in
  mapR (fun index => deref (raw !! index)) indices.

Definition getPixelData (options : FilterOption)
    (filter : option (Line -> bool)) : M (list Line) :=
  do resultData <~
    match options with
    | BrushBox lowX lowY highX highY =>
        do kdtree <~ read _kdtree;
        do raw <~ read _raw;
        lift (refine raw
                (fun line => brushFilter mix line lowX lowY highX highY)
                (brush kdtree (lowX, lowY) (highX, highY)))
    | BrushX lowX highX =>
        do kdtree <~ read _kdtree;
        do raw <~ read _raw;
        lift (refine raw
                (fun line => brushFilter mix line lowX NInf highX PInf)
                (brush kdtree (lowX, NInf) (highX, PInf)))
    | BrushY lowY highY =>
        do kdtree <~ read _kdtree;
        do raw <~ read _raw;
        lift (refine raw
                (fun line => brushFilter mix line NInf lowY PInf highY)
                (brush kdtree (NInf, lowY) (PInf, highY)))
    | AngularOpt lowX lowSlope highX highSlope =>
        do kdtree <~ read _kdtree;
        do raw <~ read _raw;
        lift (refine raw
                (fun line =>
                   angularFilter atan line lowX lowSlope highX highSlope)
                (angular kdtree (lowX, lowSlope) (highX, highSlope)))
    | AttrOpt field values =>
        do raw <~ read _raw;
        ret (List.filter
               (fun line =>
                  negb (existsb
                          (fun point => negb (includes values (attr point field)))
                          line))
               raw)
    end;
  match filter with
  | Some f => ret (List.filter f resultData)
  | None => ret resultData
  end.

Definition getSelectedLines (filter : option (Line -> bool))
  : M (list Line) :=
  do resultData <~ read _raw;
  match filter with
  | Some f => ret (List.filter f resultData)
  | None => ret resultData
  end.

End Class.

(** ** The density rasterizer *)

Definition Color : Type := (num * num * num)%type.

Record RenderOut : Type := mkOut {
  maxWeight : num;
  (** the bytes given to [putImageData] *)
  image : list Z;
}.

(** [array.reduce((p, v) => p - v)], without an initial value. *)
Definition reduce_sub (a : list Z) : result Z :=
  match a with
  | [] => Throw TypeError
  | p :: rest => Ok (fold_left Z.sub rest p)
  end.

(** [array.reduce((p, v) => Math.max(p, v))], without an initial value. *)
Definition reduce_max (a : list num) : result num :=
  match a with
  | [] => Throw TypeError
  | p :: rest => Ok (fold_left nmax rest p)
  end.

(** [new Array(n)] for an integer [n]. *)
Definition new_Array (n : Z) : result nat :=
  if (0 <=? n) && (n <? 2 ^ 32) then Ok (Z.to_nat n) else Throw RangeError.

(** [new Array(width).fill().map(() => new Array(height).fill().map(() => ({})))] *)
Definition new_cache (width height : Z) : result Cache :=
  let* w := new_Array width in
  mapR (fun _ : unit =>
          let* h := new_Array height in Ok (replicate h ([] : Cell)))
       (replicate w tt).

(** [fastMapping[id]], after [ids.forEach((id) => (fastMapping[id] = 1))]. *)
Definition fastMapping (ids : list nat) (id : nat) : bool :=
  bool_decide (id ∈ ids).

(** The two [reduce] calls over [Object.entries] of a pixel. *)
Definition weight (normalize : bool) (ids : list nat) (pixelCache : Cell)
  : num :=
  if normalize then
    fold_left (fun p v => nadd p (if fastMapping ids v.1 then v.2 else ofZ 0))
              pixelCache (ofZ 0)
  else
    fold_left (fun p v => nadd p (if fastMapping ids v.1 then ofZ 1 else ofZ 0))
              pixelCache (ofZ 0).

(** [new Float32Array(width * height).map((_, i) => ...)], for a length
    that the engine grants: the failure of the allocation on a larger
    length is not represented, nor is the rounding of each weight to
    single precision as it is stored. *)
Definition tempBuffer (cache : Cache) (width height : Z) (normalize : bool)
    (ids : list nat) : result (list num) :=
  mapR (fun i =>
          let row := Z.rem i height in
          let col := i / height in
          let* column := deref (at_ cache col) in
          let* pixelCache := deref (at_ column row) in
          Ok (weight normalize ids pixelCache))
       (seqZ 0 (width * height)).

(** Conversion of a number stored into a [Uint8ClampedArray]. *)
Definition clamp8 (a : num) : Z :=
  match a with
  | NaN | NInf => 0
  | PInf => 255
  | Fin q =>
      let f := Qfloor q in
      let up :=
        match (q - Q2Qc (inject_Z f) ?= Q2Qc (1 # 2))%Qc with
        | Lt => f
        | Gt => f + 1
        | Eq => if Z.even f then f else f + 1
        end in
      Z.max 0 (Z.min 255 up)
  end.

(** [buffer.set([r, g, b], off)] *)
Definition set3 (buffer : list Z) (off : Z) (color : Color)
  : result (list Z) :=
  if (0 <=? off) && (off + 3 <=? Z.of_nat (length buffer)) then
    let n := Z.to_nat off in
    Ok (<[(n + 2)%nat := clamp8 color.2]>
          (<[(n + 1)%nat := clamp8 color.1.2]>
             (<[n := clamp8 color.1.1]> buffer)))
  else Throw RangeError.

(** [buffer[k] = v] *)
Definition store (buffer : list Z) (k : Z) (v : Z) : list Z :=
  if k <? 0 then buffer else <[Z.to_nat k := v]> buffer.

Definition ColorCache : Type := list (num * Color).

(** [colorCache[ratio]] *)
Fixpoint cc_get (colorCache : ColorCache) (ratio : num) : option Color :=
  match colorCache with
  | [] => None
  | (k, c) :: rest => if num_eqb k ratio then Some c else cc_get rest ratio
  end.

Fixpoint foldR {A S} (f : A -> S -> result S) (l : list A) (s : S)
  : result S :=
  match l with
  | [] => Ok s
  | a :: l' => let* s' := f a s in foldR f l' s'
  end.

Section Paint.

Variable colormap : num -> Color.
Variable buf : list num.
Variable maxW : num.
Variable width height : Z.

(** [Math.round((tempBuffer[i * height + j] / maxWeight) * 10000)], in
    exact arithmetic. *)
Definition ratio_at (i j : Z) : num :=
  let w := match at_ buf (i * height + j) with Some w => w | None => NaN end in
  nround (nmul (ndiv w maxW) (ofZ 10000)).

(** The body of the inner loop. *)
Definition paint (i j : Z) (st : ColorCache * list Z)
  : result (ColorCache * list Z) :=
  let '(colorCache, tempImageBuffer) := st in
  let ratio := ratio_at i j in
  let colorCache :=
    match cc_get colorCache ratio with
    | None => (ratio, colormap (ndiv ratio (ofZ 10000))) :: colorCache
    | Some _ => colorCache
    end in
  let* color := deref (cc_get colorCache ratio) in
  let off := (j * width + i) * 4 in
  let* tempImageBuffer := set3 tempImageBuffer off color in
  Ok (colorCache,
      store tempImageBuffer (off + 3) (if nle ratio (ofZ 0) then 0 else 255)).

Definition paint_all : result (ColorCache * list Z) :=
  foldR (fun i st => foldR (paint i) (seqZ 0 height) st)
        (seqZ 0 width)
        ([], replicate (Z.to_nat (width * height * 4)) 0).

End Paint.

Section Render.

(** [brensenhamArr([a, b], cache, id, k)], which writes into [cache]. *)
Variable brensenhamArr : Datum * Datum -> Cache -> nat -> num -> Cache.

Definition slope (a b : Datum) : num :=
  ndiv (nsub (Fin (py b)) (Fin (py a))) (nsub (Fin (px b)) (Fin (px a))).

(** [for (let i = 0; i < line.length - 1; i++) brensenhamArr(...)] *)
Fixpoint stamp_line (line : Line) (id : nat) (cache : Cache) : Cache :=
  match line with
  | a :: rest =>
      match rest with
      | b :: _ => stamp_line rest id (brensenhamArr (a, b) cache id (slope a b))
      | [] => cache
      end
  | [] => cache
  end.

(** [for (let id in this._raw) ...] *)
Definition stamp_all (raw : list Line) (cache : Cache) : Cache :=
  fold_left (fun c e => stamp_line e.2 e.1 c) (imap pair raw) cache.

Definition render (colormap : num -> Color) (normalize : bool)
    (indices : option (list nat)) : M RenderOut :=
  do raw <~ read _raw;
  let indices :=
    match indices with
    | Some l => l
    | None => seq 0 (length raw)
    end in
  do xScale <~ read _xScale;
  do dx <~ lift (reduce_sub (range xScale));
  let width := Z.abs dx in
  do yScale <~ read _yScale;
  do dy <~ lift (reduce_sub (range yScale));
  let height := Z.abs dy in
  do cached <~ read _slopePixelCache;
  do cache <~
    match cached with
    | Some cache => ret cache
    | None =>
        do cache <~ lift (new_cache width height);
        let cache := stamp_all raw cache in
        do _u <~ set_slopePixelCache cache;
        ret cache
    end;
  do buf <~ lift (tempBuffer cache width height normalize indices);
  do m <~ lift (reduce_max buf);
  let maxWeight := nceil m in
  do painted <~ lift (paint_all colormap buf maxWeight width height);
  ret {| maxWeight := maxWeight; image := painted.2 |}.

End Render.

(** Modelled from the spec: the interpolation that the boundary check is
    meant to compute is not in the source file.  The spec describes it as
    the "linear interpolation between the point just outside [lp]/[rp]
    and the nearest in-range point": the y, at abscissa [x], of the
    straight line through [a] and [b]. *)
Definition interpolate (a b : Datum) (x : num) : num :=
  nadd (Fin (py a))
       (nmul (nsub (Fin (py b)) (Fin (py a)))
             (ndiv (nsub x (Fin (px a))) (nsub (Fin (px b)) (Fin (px a))))).

(** A point with pixel coordinates only. *)
Definition pt (x y : Z) : Datum :=
  mkDatum (Q2Qc (inject_Z x)) (Q2Qc (inject_Z y)) (fun _ => VUndefined).

(** ** Hypotheses on the data *)

(** The points of a line are in ascending order of pixel x. *)
Fixpoint ascending (line : Line) : bool :=
  match line with
  | a :: rest =>
      match rest with
      | b :: _ => Qle_bool (px a) (px b) && ascending rest
      | [] => true
      end
  | [] => true
  end.


(** The 32-bit shift of the binary search is exact up to this length. *)
Definition short (line : Line) : bool :=
  Z.of_nat (length line) <=? 2 ^ 30.

(** ** Vocabulary of the properties *)

(** The post-filter of [getPixelData] and [getSelectedLines]. *)
Definition post (filter : option (Line -> bool)) (resultData : list Line)
  : list Line :=
  match filter with
  | Some f => List.filter f resultData
  | None => resultData
  end.

(** The result of a method call, and the instance after it. *)
Definition returned {A} (m : M A) (t : AliTVSTree) : result A := (m t).1.
Definition after {A} (m : M A) (t : AliTVSTree) : AliTVSTree := (m t).2.

(** A sample instance: one flat line left of a steep rise, with an index
    that proposes every line it is asked about. *)
Definition sample_line : Line := [pt 0 5; pt 10 5; pt 20 25].

Definition sample_index : KDTree :=
  {| knn := fun _ _ => [mkHit 0];
     rnn := fun _ _ => [0%nat];
     brush := fun _ _ => [0%nat];
     angular := fun _ _ => [0%nat] |}.

Definition sample_scale : Scale :=
  {| scale := fun _ => NaN; range := [0; 2] |}.

Definition sample_tree : AliTVSTree :=
  {| _kdtree := sample_index; _raw := [sample_line];
     _xScale := sample_scale; _yScale := sample_scale;
     _xField := "x"; _yField := "y";
     _slopePixelCache := None |}.







(** An instance whose only line has no point, with the sample index, which
    proposes it. *)
Definition pointless_tree : AliTVSTree :=
  {| _kdtree := sample_index; _raw := [[]];
     _xScale := sample_scale; _yScale := sample_scale;
     _xField := "x"; _yField := "y";
     _slopePixelCache := None |}.

(** A call that leaves the instance as it found it, whether it returns or
    throws. *)
Definition readonly {A} (m : M A) : Prop := forall t, after m t = t.

(** The three fields the queries must leave alone. *)
Definition same_data (t t' : AliTVSTree) : Prop :=
  _raw t' = _raw t
  /\ _kdtree t' = _kdtree t
  /\ _slopePixelCache t' = _slopePixelCache t.

(** [|range[0] - range[1]|] of the two scales. *)
Definition dims (t : AliTVSTree) : result (Z * Z) :=
  let* dx := reduce_sub (range (_xScale t)) in
  let* dy := reduce_sub (range (_yScale t)) in
  Ok (Z.abs dx, Z.abs dy).

(** The part of [render] that follows the cache. *)
Definition draw (colormap : num -> Color) (cache : Cache) (width height : Z)
    (normalize : bool) (ids : list nat) : result RenderOut :=
  let* buf := tempBuffer cache width height normalize ids in
  let* m := reduce_max buf in
  let* painted := paint_all colormap buf (nceil m) width height in
  Ok {| maxWeight := nceil m; image := painted.2 |}.

Definition ids_of (raw : list Line) (indices : option (list nat)) : list nat :=
  match indices with
  | Some l => l
  | None => seq 0 (length raw)
  end.

Definition with_cache (t : AliTVSTree) (cache : Cache) : AliTVSTree :=
  {| _kdtree := _kdtree t; _raw := _raw t;
     _xScale := _xScale t; _yScale := _yScale t;
     _xField := _xField t; _yField := _yField t;
     _slopePixelCache := Some cache |}.

(** The accumulator has [width] columns of [height] cells. *)
Definition has_dims (cache : Cache) (width height : Z) : bool :=
  (Z.of_nat (length cache) =? width)
  && forallb (fun column => Z.of_nat (length column) =? height) cache.

(** The chart changes the pixel ranges of the two scales (a resize of the
    surface); the scale objects are shared with the instance. *)
Definition resize (t : AliTVSTree) (xRange yRange : list Z) : AliTVSTree :=
  {| _kdtree := _kdtree t; _raw := _raw t;
     _xScale := {| scale := scale (_xScale t); range := xRange |};
     _yScale := {| scale := scale (_yScale t); range := yRange |};
     _xField := _xField t; _yField := _yField t;
     _slopePixelCache := _slopePixelCache t |}.

(** A line drawer that touches no pixel, and a colormap from black to red,
    for the examples. *)
Definition draw_nothing : Datum * Datum -> Cache -> nat -> num -> Cache :=
  fun _ cache _ _ => cache.

Definition red_ramp (ratio : num) : Color :=
  (nmul ratio (ofZ 255), ofZ 0, ofZ 0).

(** An instance after a first [render], on a surface one pixel wide and
    two pixels high: line 0 weighs 1/100000 in the first pixel and 1 in
    the second. *)
Definition faint_cache : Cache :=
  [[[(0%nat, Fin (Q2Qc (1 # 100000)))]; [(0%nat, ofZ 1)]]].

Definition faint_tree : AliTVSTree :=
  {| _kdtree := sample_index; _raw := [sample_line];
     _xScale := {| scale := fun _ => NaN; range := [0; 1] |};
     _yScale := {| scale := fun _ => NaN; range := [0; 2] |};
     _xField := "x"; _yField := "y";
     _slopePixelCache := Some faint_cache |}.

Definition faint_out : RenderOut :=
  {| maxWeight := ofZ 1; image := [0; 0; 0; 0; 255; 0; 0; 255] |}.

(** Modelled from the spec: [KDTree] is not part of the source file.
    "Empty data set → index is a valid empty structure; all queries
    return empty results". *)
Definition empty_index (kdtree : KDTree) : Prop :=
  (forall p k, knn kdtree p k = [])
  /\ (forall p r, rnn kdtree p r = [])
  /\ (forall lo hi, brush kdtree lo hi = [])
  /\ (forall lo hi, angular kdtree lo hi = []).

(** Where the four bytes of pixel (i, j) start. *)
Definition offset (width : Z) (i j : Z) : nat :=
  Z.to_nat ((j * width + i) * 4).

(** The bytes of pixel (i, j) are the colour of its quantized ratio and
    the alpha that the sign of the ratio selects. *)
Definition pixel_ok (colormap : num -> Color) (buf : list num) (maxW : num)
    (width height : Z) (img : list Z) (i j : Z) : Prop :=
  let ratio := ratio_at buf maxW height i j in
  let color := colormap (ndiv ratio (ofZ 10000)) in
  img !! offset width i j = Some (clamp8 color.1.1)
  /\ img !! (offset width i j + 1)%nat = Some (clamp8 color.1.2)
  /\ img !! (offset width i j + 2)%nat = Some (clamp8 color.2)
  /\ img !! (offset width i j + 3)%nat
     = Some (if nle ratio (ofZ 0) then 0 else 255).

(** Every memoized colour is the colormap at its ratio. *)
Definition cc_sound (colormap : num -> Color) (colorCache : ColorCache)
  : Prop :=
  forall ratio c, cc_get colorCache ratio = Some c ->
                  c = colormap (ndiv ratio (ofZ 10000)).

(** The pixels painted before the loops reach column [i0], row [j0]. *)
Definition painted_before (colormap : num -> Color) (buf : list num)
    (maxW : num) (width height : Z) (i0 j0 : Z) (st : ColorCache * list Z)
  : Prop :=
  cc_sound colormap st.1
  /\ length st.2 = Z.to_nat (width * height * 4)
  /\ forall i j, 0 <= i < width -> 0 <= j < height ->
                 i < i0 \/ (i = i0 /\ j < j0) ->
                 pixel_ok colormap buf maxW width height st.2 i j.

(** ** Vocabulary of the further properties *)

(** The test of the scan on one point: neither [y < minY] nor
    [y > maxY]. *)
Definition y_inside (minY maxY : num) (p : Datum) : bool :=
  negb (nlt (Fin (py p)) minY || ngt (Fin (py p)) maxY).

(** Linear searches, to compare the binary searches with: the first and
    the last index of a point that passes a test. *)
Fixpoint first_index (f : Datum -> bool) (line : Line) : option nat :=
  match line with
  | [] => None
  | p :: rest =>
      if f p then Some 0%nat
      else match first_index f rest with
           | Some k => Some (S k)
           | None => None
           end
  end.

Fixpoint last_index (f : Datum -> bool) (line : Line) : option nat :=
  match line with
  | [] => None
  | p :: rest =>
      match last_index f rest with
      | Some k => Some (S k)
      | None => if f p then Some 0%nat else None
      end
  end.

(** The candidates that [getPixelData] asks the index for. *)
Definition candidates (kdtree : KDTree) (options : FilterOption) : list nat :=
  match options with
  | BrushBox lowX lowY highX highY => brush kdtree (lowX, lowY) (highX, highY)
  | BrushX lowX highX => brush kdtree (lowX, NInf) (highX, PInf)
  | BrushY lowY highY => brush kdtree (NInf, lowY) (PInf, highY)
  | AngularOpt lowX lowSlope highX highSlope =>
      angular kdtree (lowX, lowSlope) (highX, highSlope)
  | AttrOpt _ _ => []
  end.

(** The callback of the geometric cases of [getPixelData]. *)
Definition callback (mix : option (Datum -> Datum -> num -> num))
    (atan : num -> num)
    (options : FilterOption) (line : Line) : result bool :=
  match options with
  | BrushBox lowX lowY highX highY =>
      brushFilter mix line lowX lowY highX highY
  | BrushX lowX highX => brushFilter mix line lowX NInf highX PInf
  | BrushY lowY highY => brushFilter mix line NInf lowY PInf highY
  | AngularOpt lowX lowSlope highX highSlope =>
      angularFilter atan line lowX lowSlope highX highSlope
  | AttrOpt _ _ => Ok true
  end.

(** Every point of the line has an allowed value in the field. *)
Definition all_allowed (field : string) (values : list value) (line : Line)
  : bool :=
  forallb (fun point => includes values (attr point field)) line.

(** * Properties *)

(** ** Order on numbers *)

Lemma Qc_cmp_spec (p q : Qc) :
  CompareSpec (p = q) (p < q)%Qc (q < p)%Qc (p ?= q)%Qc.
Proof.
  destruct (p ?= q)%Qc eqn:E; constructor.
  - by apply Qceq_alt.
  - by apply Qclt_alt.
  - by apply Qcgt_alt.
Qed.

Ltac qc_cases :=
  repeat match goal with
    | |- context [(?p ?= ?q)%Qc] => destruct (Qc_cmp_spec p q)
    | H : context [(?p ?= ?q)%Qc] |- _ => destruct (Qc_cmp_spec p q)
    end.

Ltac qc_order :=
  intros; subst; unfold Qclt, Qcle in *; try done; try lra; try (exfalso; lra).

Lemma nge_Fin_mono (a b : Qc) (m : num) :
  (a <= b)%Qc -> nge (Fin a) m = true -> nge (Fin b) m = true.
Proof.
  unfold nge. destruct m; simpl; try done.
  intros Hab. qc_cases; qc_order.
Qed.

Lemma nle_Fin_mono (a b : Qc) (m : num) :
  (a <= b)%Qc -> nle (Fin b) m = true -> nle (Fin a) m = true.
Proof.
  unfold nle. destruct m; simpl; try done.
  intros Hab. qc_cases; qc_order.
Qed.



(** ** Lists of points *)

Lemma at_Some {A} (a : list A) (i : Z) (v : A) :
  at_ a i = Some v <-> 0 <= i /\ a !! Z.to_nat i = Some v.
Proof.
  unfold at_. destruct (Z.ltb_spec i 0).
  - split; [done | intros [? _]; lia].
  - split; [intros; split; [lia | done] | by intros [_ ?]].
Qed.

Lemma at_lt {A} (a : list A) (i : Z) (v : A) :
  at_ a i = Some v -> 0 <= i < Z.of_nat (length a).
Proof.
  intros [? H%lookup_lt_Some]%at_Some. lia.
Qed.

Lemma at_is_Some {A} (a : list A) (i : Z) :
  0 <= i < Z.of_nat (length a) -> exists v, at_ a i = Some v.
Proof.
  intros Hi. destruct (lookup_lt_is_Some_2 a (Z.to_nat i)) as [v Hv]; [lia|].
  exists v. apply at_Some. split; [lia | done].
Qed.

Lemma ascending_le (line : Line) (i j : nat) (a b : Datum) :
  ascending line = true ->
  line !! i = Some a -> line !! j = Some b -> (i <= j)%nat ->
  (px a <= px b)%Qc.
Proof.
  revert i j a b. induction line as [|c rest IH]; intros i j a b Hs Hi Hj Hij.
  - done.
  - assert (Hrest : ascending rest = true).
    { simpl in Hs. destruct rest; [done|]. by apply andb_prop in Hs as [_ ?]. }
    assert (Hhead : forall k d, rest !! k = Some d -> (px c <= px d)%Qc).
    { intros k. induction k as [|k IHk]; intros d Hd.
      - simpl in Hs. destruct rest as [|e rest']; [done|].
        apply andb_prop in Hs as [Hle _]. apply Qle_bool_iff in Hle.
        simpl in Hd. by injection Hd as <-.
      - destruct (lookup_lt_is_Some_2 rest k) as [e He].
        { apply lookup_lt_Some in Hd. lia. }
        apply Qcle_trans with (px e); [by apply IHk|].
        apply (IH k (S k) e d); [done | done | done | lia]. }
    destruct i as [|i], j as [|j]; simpl in *.
    + injection Hi as <-. injection Hj as <-. apply Qcle_refl.
    + injection Hi as <-. by apply (Hhead j).
    + lia.
    + apply (IH i j a b); [done | done | done | lia].
Qed.



Lemma ascending_at (line : Line) (i j : Z) (a b : Datum) :
  ascending line = true ->
  at_ line i = Some a -> at_ line j = Some b -> i <= j ->
  (px a <= px b)%Qc.
Proof.
  intros Hs [Hi Ha]%at_Some [Hj Hb]%at_Some Hij.
  apply (ascending_le line (Z.to_nat i) (Z.to_nat j)); [done | done | done | lia].
Qed.

(** ** The binary searches *)

Lemma sar1_half (z : Z) : 0 <= z < 2 ^ 31 -> sar1 z = z / 2.
Proof.
  intros Hz. unfold sar1, to_int32.
  rewrite Z.mod_small by lia.
  rewrite Z.shiftr_div_pow2 by lia.
  f_equal. lia.
Qed.

Section Search.

Variable line : Line.
Hypothesis Hasc : ascending line = true.









End Search.

Section SearchTotal.

Variable line : Line.
Hypothesis Hshort : short line = true.

Lemma search_lp_total (fuel : nat) (minX : num) (l r lp : Z) :
  0 <= l <= r + 1 -> r < Z.of_nat (length line) ->
  r - l + 1 < Z.of_nat fuel ->
  exists res, search_lp fuel line minX l r lp = Ok res
              /\ (res = lp \/ l <= res <= r).
Proof using Hshort.
  apply Z.leb_le in Hshort.
  revert l r lp. induction fuel as [|fuel IH]; intros l r lp Hl Hr Hfuel;
    simpl; [lia|].
  destruct (Z.leb_spec l r) as [Hlr|Hlr]; [|by eauto].
  rewrite sar1_half by lia.
  assert (Hmid : l <= (l + r) / 2 <= r).
  { split; [apply Z.div_le_lower_bound | apply Z.div_le_upper_bound]; lia. }
  destruct (at_is_Some line ((l + r) / 2)) as [m ->]; [lia|]. simpl.
  destruct (nge (Fin (px m)) minX).
  - destruct (IH l ((l + r) / 2 - 1) ((l + r) / 2)) as (res & -> & Hres);
      [lia..|]. exists res. split; [done|]. lia.
  - destruct (IH ((l + r) / 2 + 1) r lp) as (res & -> & Hres);
      [lia..|]. exists res. split; [done|]. lia.
Qed.

Lemma search_rp_total (fuel : nat) (maxX : num) (l r rp : Z) :
  0 <= l <= r + 1 -> r < Z.of_nat (length line) ->
  r - l + 1 < Z.of_nat fuel ->
  exists res, search_rp fuel line maxX l r rp = Ok res
              /\ (res = rp \/ l <= res <= r).
Proof using Hshort.
  apply Z.leb_le in Hshort.
  revert l r rp. induction fuel as [|fuel IH]; intros l r rp Hl Hr Hfuel;
    simpl; [lia|].
  destruct (Z.leb_spec l r) as [Hlr|Hlr]; [|by eauto].
  rewrite sar1_half by lia.
  assert (Hmid : l <= (l + r) / 2 <= r).
  { split; [apply Z.div_le_lower_bound | apply Z.div_le_upper_bound]; lia. }
  destruct (at_is_Some line ((l + r) / 2)) as [m ->]; [lia|]. simpl.
  destruct (nle (Fin (px m)) maxX).
  - destruct (IH ((l + r) / 2 + 1) r ((l + r) / 2)) as (res & -> & Hres);
      [lia..|]. exists res. split; [done|]. lia.
  - destruct (IH l ((l + r) / 2 - 1) rp) as (res & -> & Hres);
      [lia..|]. exists res. split; [done|]. lia.
Qed.

(** The searches return, with an index of the line (or the initial
    value, on a line where the search never moves it). *)
Lemma find_lp_total (minX : num) :
  exists lp, find_lp line minX = Ok lp
             /\ (lp = 0 \/ 0 <= lp < Z.of_nat (length line)).
Proof using Hshort.
  destruct (search_lp_total (S (length line)) minX 0
              (Z.of_nat (length line) - 1) 0) as (lp & H & Hlp); [lia..|].
  exists lp. split; [done | lia].
Qed.

Lemma find_rp_total (maxX : num) :
  exists rp, find_rp line maxX = Ok rp
             /\ (rp = Z.of_nat (length line) - 1
                 \/ 0 <= rp < Z.of_nat (length line)).
Proof using Hshort.
  destruct (search_rp_total (S (length line)) maxX 0
              (Z.of_nat (length line) - 1) (Z.of_nat (length line) - 1))
    as (rp & H & Hrp); [lia..|].
  exists rp. split; [done | lia].
Qed.

End SearchTotal.

(** ** The refinement predicates *)


Lemma scan_y_total (n : nat) (line : Line) (minY maxY : num) (i : Z) :
  0 <= i -> i + Z.of_nat n <= Z.of_nat (length line) ->
  exists b, scan_y n line minY maxY i = Ok b.
Proof.
  revert i. induction n as [|n IH]; intros i Hi Hn; simpl; [by eauto|].
  destruct (at_is_Some line i) as [q ->]; [lia|]. simpl.
  destruct (nlt (Fin (py q)) minY || ngt (Fin (py q)) maxY); [by eauto|].
  apply IH; lia.
Qed.

Lemma scan_y_unbounded (n : nat) (line : Line) (i : Z) :
  0 <= i -> i + Z.of_nat n <= Z.of_nat (length line) ->
  scan_y n line NInf PInf i = Ok true.
Proof.
  revert i. induction n as [|n IH]; intros i Hi Hn; simpl; [done|].
  destruct (at_is_Some line i) as [q ->]; [lia|]. simpl.
  apply IH; lia.
Qed.


Lemma filterR_elem {A} (f : A -> result bool) (l r : list A) (a : A) :
  filterR f l = Ok r -> a ∈ r -> a ∈ l /\ f a = Ok true.
Proof.
  revert r. induction l as [|b l IH]; intros r; simpl.
  - intros [= <-] H. by apply not_elem_of_nil in H.
  - destruct (f b) as [c|] eqn:Hb; simpl; [|done].
    destruct (filterR f l) as [r'|]; simpl; [|done].
    intros [= <-] Ha. destruct c.
    + apply elem_of_cons in Ha as [->|Ha].
      * split; [apply list_elem_of_here | done].
      * destruct (IH r' eq_refl Ha). split; [by apply list_elem_of_further | done].
    + destruct (IH r' eq_refl Ha). split; [by apply list_elem_of_further | done].
Qed.

Lemma mapR_elem {A B} (f : A -> result B) (l : list A) (r : list B) (b : B) :
  mapR f l = Ok r -> b ∈ r -> exists a, a ∈ l /\ f a = Ok b.
Proof.
  revert r. induction l as [|c l IH]; intros r; simpl.
  - intros [= <-] H. by apply not_elem_of_nil in H.
  - destruct (f c) as [d|] eqn:Hc; simpl; [|done].
    destruct (mapR f l) as [r'|]; simpl; [|done].
    intros [= <-] [->|Hb]%elem_of_cons.
    + exists c. split; [apply list_elem_of_here | done].
    + destruct (IH r' eq_refl Hb) as (a & ? & ?).
      exists a. split; [by apply list_elem_of_further | done].
Qed.

(** A line that [refine] returns is a raw line of a candidate that the
    predicate accepted. *)
Lemma refine_elem (raw : list Line) (accept : Line -> result bool)
    (candidates : list nat) (res : list Line) (line : Line) :
  refine raw accept candidates = Ok res -> line ∈ res ->
  accept line = Ok true
  /\ exists id, id ∈ candidates /\ raw !! id = Some line.
Proof.
  unfold refine.
  destruct (filterR _ candidates) as [indices|] eqn:Hf; simpl; [|done].
  intros Hm Hin. destruct (mapR_elem _ _ _ _ Hm Hin) as (id & Hid & Hraw).
  destruct (filterR_elem _ _ _ _ Hf Hid) as [Hc Hacc].
  destruct (raw !! id) as [line'|] eqn:E; simpl in *; [|done].
  injection Hraw as ->. split; [done|]. eauto.
Qed.

Lemma post_elem filter resultData line :
  line ∈ post filter resultData -> line ∈ resultData.
Proof.
  destruct filter as [f|]; simpl; [|done].
  rewrite !list_elem_of_In. by intros [? _]%filter_In.
Qed.

Lemma getPixelData_BrushBox mix atan lowX lowY highX highY filter t :
  getPixelData mix atan (BrushBox lowX lowY highX highY) filter t =
  ((let* resultData :=
      refine (_raw t)
        (fun line => brushFilter mix line lowX lowY highX highY)
        (brush (_kdtree t) (lowX, lowY) (highX, highY)) in
    Ok (post filter resultData)), t).
Proof.
  unfold getPixelData, bind, read, lift, ret. simpl.
  destruct (refine _ _ _); destruct filter; reflexivity.
Qed.




(** ** The boundary crossings *)




(** A line with a point left of the window (or right of it) makes the
    callback throw, whatever the y bounds are. *)
Lemma brushFilter_unbound_throws (line : Line) (minX minY maxX maxY : num)
    (lp rp : Z) :
  find_lp line minX = Ok lp -> find_rp line maxX = Ok rp ->
  scan_y (Z.to_nat (rp - lp + 1)) line minY maxY lp = Ok true ->
  lp <> 0 \/ rp < Z.of_nat (length line) - 1 ->
  brushFilter None line minX minY maxX maxY = Throw ReferenceError.
Proof.
  intros Hlp Hrp Hscan Hout. unfold brushFilter.
  rewrite Hlp, Hrp. simpl. rewrite Hscan. simpl.
  destruct (Z.eqb_spec lp 0) as [->|Hne]; simpl; [|done].
  destruct Hout as [?|Hlt]; [done|].
  destruct (Z.ltb_spec rp (Z.of_nat (length line) - 1)); [done | lia].
Qed.



(** The same query on a host that binds [mix] to the interpolation: both
    calls are given [minX], so that the segment from (10, 5) to (20, 25)
    is tested at x = 9 (y = 3) and the line is returned by the box x in
    [9, 15], y in [0, 10], which it leaves at x = 15 with y = 15. *)
Lemma right_crossing_tested_at_minX (atan : num -> num) :
  returned (getPixelData (Some interpolate) atan
              (BrushBox (ofZ 9) (ofZ 0) (ofZ 15) (ofZ 10)) None) sample_tree
    = Ok [sample_line]
  /\ find_lp sample_line (ofZ 9) = Ok 1
  /\ find_rp sample_line (ofZ 15) = Ok 1
  /\ num_eqb (interpolate (pt 10 5) (pt 20 25) (ofZ 9)) (ofZ 3) = true
  /\ num_eqb (interpolate (pt 10 5) (pt 20 25) (ofZ 15)) (ofZ 15) = true
  /\ ngt (interpolate (pt 10 5) (pt 20 25) (ofZ 15)) (ofZ 10) = true.
Proof.
  unfold returned. rewrite getPixelData_BrushBox. vm_compute. done.
Qed.

(** ** Unbounded y: the brush-x case *)

Lemma nlt_NInf (a : num) : nlt a NInf = false.
Proof. by destruct a. Qed.

Lemma ngt_PInf (a : num) : ngt a PInf = false.
Proof. by destruct a. Qed.

Lemma crossing_unbounded f (line : Line) (i j : Z) (atX : num) :
  0 <= i < Z.of_nat (length line) -> 0 <= j < Z.of_nat (length line) ->
  crossing (Some f) line i j atX NInf PInf = Ok true.
Proof.
  intros Hi Hj. unfold crossing.
  destruct (at_is_Some line i Hi) as [a ->].
  destruct (at_is_Some line j Hj) as [b ->]. simpl.
  by rewrite nlt_NInf, ngt_PInf.
Qed.

Lemma brushFilter_unbounded f (line : Line) (minX maxX : num) :
  short line = true ->
  brushFilter (Some f) line minX NInf maxX PInf = Ok true.
Proof.
  intros Hshort. unfold brushFilter.
  destruct (find_lp_total line Hshort minX) as (lp & -> & Hlp).
  destruct (find_rp_total line Hshort maxX) as (rp & -> & Hrp).
  cbn [rbind]. rewrite scan_y_unbounded; [|lia..]. cbn [rbind negb].
  destruct (Z.eqb_spec lp 0) as [->|Hne]; cbn [rbind negb].
  - destruct (Z.ltb_spec rp (Z.of_nat (length line) - 1)); [|done].
    apply crossing_unbounded; lia.
  - rewrite crossing_unbounded; [|lia..]. cbn [rbind negb].
    destruct (Z.ltb_spec rp (Z.of_nat (length line) - 1)); [|done].
    apply crossing_unbounded; lia.
Qed.

Lemma refine_all (raw : list Line) (accept : Line -> result bool)
    (candidates : list nat) (lines : list Line) :
  mapR (fun id => deref (raw !! id)) candidates = Ok lines ->
  (forall line, line ∈ lines -> accept line = Ok true) ->
  refine raw accept candidates = Ok lines.
Proof.
  intros Hmap Hacc. unfold refine.
  assert (Hf : filterR (fun id => let* line := deref (raw !! id) in accept line)
                 candidates = Ok candidates).
  { revert lines Hmap Hacc.
    induction candidates as [|id cs IH]; intros lines; simpl; [done|].
    destruct (raw !! id) as [line|]; simpl; [|done].
    destruct (mapR _ cs) as [ls|] eqn:Hcs; simpl; [|done].
    intros [= <-] Hacc. rewrite Hacc; [|apply list_elem_of_here]. simpl.
    rewrite (IH ls); [done | done |].
    intros l Hl. apply Hacc. by apply list_elem_of_further. }
  rewrite Hf. done.
Qed.

Lemma getPixelData_BrushX mix atan lowX highX filter t :
  getPixelData mix atan (BrushX lowX highX) filter t =
  ((let* resultData :=
      refine (_raw t)
        (fun line => brushFilter mix line lowX NInf highX PInf)
        (brush (_kdtree t) (lowX, NInf) (highX, PInf)) in
    Ok (post filter resultData)), t).
Proof.
  unfold getPixelData, bind, read, lift, ret. simpl.
  destruct (refine _ _ _); destruct filter; reflexivity.
Qed.

(** On a host that binds [mix] to a function the brush-x refinement is
    vacuous: with the y bounds at the two infinities no candidate is
    rejected, whatever the function returns, and the query returns the raw
    lines of the candidates of the index, in their order, with only the
    caller's post-filter applied. *)
Lemma brush_x_bound_returns_candidates f atan (t : AliTVSTree)
    (lowX highX : num) (filter : option (Line -> bool)) (lines : list Line) :
  mapR (fun id => deref (_raw t !! id))
       (brush (_kdtree t) (lowX, NInf) (highX, PInf)) = Ok lines ->
  forallb short lines = true ->
  returned (getPixelData (Some f) atan (BrushX lowX highX) filter) t
    = Ok (post filter lines).
Proof.
  intros Hmap Hshort. unfold returned. rewrite getPixelData_BrushX. simpl.
  rewrite (refine_all _ _ _ lines); [done | done |].
  intros line Hline%list_elem_of_In. apply brushFilter_unbounded.
  by apply (proj1 (forallb_forall short lines) Hshort).
Qed.

(** C10. The brush-x query of the file as it is does not return the
    candidates of the index: on the sample line, whose first point lies
    left of the window x in [9, 15], the callback reaches
    [mix(line[lp - 1], line[lp], minX)] at line 209 and the query throws
    a [ReferenceError], with or without a post-filter. *)
Theorem brush_x_unbound_mix_throws (atan : num -> num)
    (filter : option (Line -> bool)) :
  mapR (fun id => deref (_raw sample_tree !! id))
       (brush (_kdtree sample_tree) (ofZ 9, NInf) (ofZ 15, PInf))
    = Ok [sample_line]
  /\ find_lp sample_line (ofZ 9) = Ok 1
  /\ returned (getPixelData None atan (BrushX (ofZ 9) (ofZ 15)) filter)
              sample_tree
     = Throw ReferenceError.
Proof.
  unfold returned. rewrite getPixelData_BrushX.
  split_and!; [done | done |]. by destruct filter.
Qed.

(** ** The angular case *)





Lemma getPixelData_Angular mix atan lowX lowSlope highX highSlope filter t :
  getPixelData mix atan (AngularOpt lowX lowSlope highX highSlope) filter t =
  ((let* resultData :=
      refine (_raw t)
        (fun line => angularFilter atan line lowX lowSlope highX highSlope)
        (angular (_kdtree t) (lowX, lowSlope) (highX, highSlope)) in
    Ok (post filter resultData)), t).
Proof.
  unfold getPixelData, bind, read, lift, ret. simpl.
  destruct (refine _ _ _); destruct filter; reflexivity.
Qed.



Section AngularSound.

Variable atan : num -> num.
(** [Math.atan2(dy, dx)] *)
Variable atan2 : num -> num -> num.

(** In the right half-plane the two-argument arctangent is the
    arctangent of the quotient. *)
Hypothesis atan2_right : forall dy dx : Qc,
  (0 < dx)%Qc -> atan2 (Fin dy) (Fin dx) = atan (Fin (dy / dx)%Qc).
(** The arctangent of a finite number is a number. *)
Hypothesis atan_number : forall q : Qc, is_nan (atan (Fin q)) = false.




End AngularSound.




(** ** Degenerate lines *)

(** The brush predicates accept a line without points: the searches and
    the scan run no iteration, and no crossing is looked at. *)
Lemma brushFilter_pointless mix (minX minY maxX maxY : num) :
  brushFilter mix [] minX minY maxX maxY = Ok true.
Proof. reflexivity. Qed.

(** The angular predicate accepts or rejects a line of one point,
    without looking at any segment. *)
Lemma angularFilter_single atan (p : Datum) (minX angMin maxX angMax : num) :
  angularFilter atan [p] minX angMin maxX angMax
  = Ok (negb (ngt (Fin (px p)) maxX) && negb (nlt (Fin (px p)) minX)).
Proof.
  unfold angularFilter, find_lp, find_rp. simpl.
  destruct (ngt (Fin (px p)) maxX) eqn:Hgt; [done|].
  destruct (nlt (Fin (px p)) minX) eqn:Hlt; [done|].
  assert (Hge : nge (Fin (px p)) minX = true \/ nge (Fin (px p)) minX = false)
    by (destruct (nge _ _); auto).
  assert (Hle : nle (Fin (px p)) maxX = true \/ nle (Fin (px p)) maxX = false)
    by (destruct (nle _ _); auto).
  destruct Hge as [-> | ->], Hle as [-> | ->].
  all: reflexivity.
Qed.

(** C8. Degenerate polylines: the claim asks that a candidate line without
    points never makes a filtered query fail.  The angular callback reads
    [line[0].x] before anything else, so on such a candidate the whole
    angular query throws, whatever the bounds and the post-filter; the
    three brush callbacks accept the same line. *)
Theorem angular_pointless_line_throws mix atan
    (lowX lowSlope highX highSlope : num) (filter : option (Line -> bool)) :
  returned (getPixelData mix atan
              (AngularOpt lowX lowSlope highX highSlope) filter)
           pointless_tree
  = Throw TypeError.
Proof.
  unfold returned. rewrite getPixelData_Angular. reflexivity.
Qed.

(** ** The empty data set *)

Section Empty.

Variable new_KDTree : list (list Point2) -> KDTree.
Variable getClosestPointOnLines : Point2 -> list Point2 -> Point2.
Variable mix : option (Datum -> Datum -> num -> num).
Variable atan : num -> num.
Variables xField yField : string.
Variables xScale yScale : Scale.

(** The instance built from no line. *)
Let empty_tree : AliTVSTree :=
  constructor new_KDTree [] xField yField xScale yScale.

(** C4. Empty data set: the claim asks every query on an instance built
    from no line to return an empty result.  [getCrossPoints] throws
    there, whatever the index answers: either [knn] returns no hit and
    [.id] is read from [undefined], or it returns one and the raw line
    at that position is [undefined]. *)
Theorem getCrossPoints_empty_throws (x y : num) :
  returned (getCrossPoints getClosestPointOnLines x y) empty_tree
  = Throw TypeError.
Proof.
  unfold returned, getCrossPoints, bind, read, lift, ret. simpl.
  destruct (at_ (knn _ (x, y) 1) 0) as [hit|]; reflexivity.
Qed.

(** The two other queries do return empty results on an empty index. *)
Lemma getHoverLines_empty (x y r : num) (topN : Z) :
  empty_index (_kdtree empty_tree) ->
  returned (getHoverLines x y r topN) empty_tree
  = Ok {| hover_position := (x, y); hover_data := [] |}.
Proof.
  intros (_ & Hrnn & _).
  unfold returned, getHoverLines, bind, read, lift, ret. simpl.
  rewrite Hrnn. unfold slice0. destruct (0 <=? topN); by rewrite take_nil.
Qed.

Lemma getPixelData_empty (options : FilterOption)
    (filter : option (Line -> bool)) :
  empty_index (_kdtree empty_tree) ->
  returned (getPixelData mix atan options filter) empty_tree = Ok [].
Proof.
  intros (_ & _ & Hbrush & Hangular).
  unfold returned, getPixelData, bind, read, lift, ret.
  destruct options; simpl; rewrite ?Hbrush, ?Hangular; simpl;
    by destruct filter.
Qed.

End Empty.

(** ** The frame of the queries *)

Lemma readonly_ret {A} (a : A) : readonly (ret a).
Proof. by intros t. Qed.

Lemma readonly_lift {A} (r : result A) : readonly (lift r).
Proof. by intros t. Qed.

Lemma readonly_read {A} (field : AliTVSTree -> A) : readonly (read field).
Proof. by intros t. Qed.

Lemma readonly_bind {A B} (m : M A) (k : A -> M B) :
  readonly m -> (forall a, readonly (k a)) -> readonly (bind m k).
Proof.
  intros Hm Hk t. unfold after, bind.
  pose proof (Hm t) as Hmt. unfold after in Hmt.
  destruct (m t) as [[a|e] t']; simpl in *; subst t'; [|done].
  apply Hk.
Qed.

Create HintDb frame.
#[local] Hint Resolve readonly_ret readonly_lift readonly_read : frame.

Ltac frame_step :=
  repeat first
    [ apply readonly_bind; [|intros ?]
    | match goal with
      | |- readonly (match ?x with _ => _ end) => destruct x
      end
    | solve [auto with frame] ].

Lemma getCrossPoints_readonly gcp (x y : num) :
  readonly (getCrossPoints gcp x y).
Proof. unfold getCrossPoints. frame_step. Qed.

Lemma getHoverLines_readonly (x y r : num) (topN : Z) :
  readonly (getHoverLines x y r topN).
Proof. unfold getHoverLines. frame_step. Qed.

Lemma getPixelData_readonly mix atan (options : FilterOption)
    (filter : option (Line -> bool)) :
  readonly (getPixelData mix atan options filter).
Proof. unfold getPixelData. frame_step. Qed.

Lemma getSelectedLines_readonly (filter : option (Line -> bool)) :
  readonly (getSelectedLines filter).
Proof. unfold getSelectedLines. frame_step. Qed.

(** C9. Query frame: after [getCrossPoints], [getHoverLines],
    [getPixelData] or [getSelectedLines], whether the call returned or
    threw, the raw data, the index and the accumulator cache of the
    instance are what they were before the call. *)
Theorem queries_frame gcp mix atan (t : AliTVSTree)
    (x y r : num) (topN : Z) (options : FilterOption)
    (filter : option (Line -> bool)) :
  same_data t (after (getCrossPoints gcp x y) t)
  /\ same_data t (after (getHoverLines x y r topN) t)
  /\ same_data t (after (getPixelData mix atan options filter) t)
  /\ same_data t (after (getSelectedLines filter) t).
Proof.
  rewrite getCrossPoints_readonly, getHoverLines_readonly,
    getPixelData_readonly, getSelectedLines_readonly.
  by repeat split.
Qed.

(** ** The rasterizer *)

Section RenderFacts.

Variable brensenhamArr : Datum * Datum -> Cache -> nat -> num -> Cache.
Variable colormap : num -> Color.
Variable normalize : bool.
Variable indices : option (list nat).

Lemma render_no_dims (t : AliTVSTree) (e : error) :
  dims t = Throw e ->
  render brensenhamArr colormap normalize indices t = (Throw e, t).
Proof.
  unfold dims, render, bind, read, lift, ret. simpl.
  destruct (reduce_sub (range (_xScale t))); simpl; [|by intros [= ->]].
  destruct (reduce_sub (range (_yScale t))); simpl; [done | by intros [= ->]].
Qed.

Lemma render_cached (t : AliTVSTree) (cache : Cache) (width height : Z) :
  _slopePixelCache t = Some cache -> dims t = Ok (width, height) ->
  render brensenhamArr colormap normalize indices t
  = (draw colormap cache width height normalize (ids_of (_raw t) indices), t).
Proof.
  unfold dims, render, draw, bind, read, lift, ret. simpl. intros ->.
  destruct (reduce_sub (range (_xScale t))); simpl; [|done].
  destruct (reduce_sub (range (_yScale t))); simpl; [|done].
  intros [= <- <-]. fold (ids_of (_raw t) indices).
  destruct (tempBuffer _ _ _ _ _); simpl; [|done].
  destruct (reduce_max _); simpl; [|done].
  by destruct (paint_all _ _ _ _ _).
Qed.

Lemma render_fresh_fail (t : AliTVSTree) (width height : Z) (e : error) :
  _slopePixelCache t = None -> dims t = Ok (width, height) ->
  new_cache width height = Throw e ->
  render brensenhamArr colormap normalize indices t = (Throw e, t).
Proof.
  unfold dims, render, bind, read, lift, ret. simpl. intros ->.
  destruct (reduce_sub (range (_xScale t))); simpl; [|done].
  destruct (reduce_sub (range (_yScale t))); simpl; [|done].
  intros [= <- <-] ->. done.
Qed.

Lemma render_fresh (t : AliTVSTree) (width height : Z) (cache : Cache) :
  _slopePixelCache t = None -> dims t = Ok (width, height) ->
  new_cache width height = Ok cache ->
  render brensenhamArr colormap normalize indices t
  = (draw colormap (stamp_all brensenhamArr (_raw t) cache) width height
          normalize (ids_of (_raw t) indices),
     with_cache t (stamp_all brensenhamArr (_raw t) cache)).
Proof.
  unfold dims, render, draw, bind, read, lift, ret, set_slopePixelCache.
  simpl. intros ->.
  destruct (reduce_sub (range (_xScale t))); simpl; [|done].
  destruct (reduce_sub (range (_yScale t))); simpl; [|done].
  intros [= <- <-] ->. simpl. fold (ids_of (_raw t) indices).
  unfold with_cache.
  destruct (tempBuffer _ _ _ _ _); simpl; [|done].
  destruct (reduce_max _); simpl; [|done].
  by destruct (paint_all _ _ _ _ _).
Qed.

End RenderFacts.

(** *** The accumulator cache *)

Lemma mapR_const {A B} (r : result B) (l : list A) (res : list B) :
  mapR (fun _ => r) l = Ok res ->
  l = [] /\ res = [] \/ exists b, r = Ok b /\ res = replicate (length l) b.
Proof.
  revert res. induction l as [|a l IH]; intros res; simpl.
  - intros [= <-]. by left.
  - destruct r as [b|e] eqn:Hr; simpl; [|done].
    destruct (mapR (fun _ => Ok b) l) as [res'|] eqn:Hl; simpl; [|done].
    intros [= <-]. right. exists b. split; [done|].
    destruct (IH res' eq_refl) as [[-> ->]|(b' & [= <-] & ->)]; done.
Qed.

Lemma new_cache_dims (width height : Z) (cache : Cache) :
  new_cache width height = Ok cache -> has_dims cache width height = true.
Proof.
  unfold new_cache, new_Array, has_dims.
  destruct ((0 <=? width) && (width <? 2 ^ 32)) eqn:Hw; simpl; [|done].
  apply andb_prop in Hw as [Hw%Z.leb_le _].
  intros [[Hnil ->]|(col & Hcol & ->)]%mapR_const.
  - apply (f_equal length) in Hnil. rewrite length_replicate in Hnil.
    assert (width = 0) as -> by (simpl in Hnil; lia). done.
  - rewrite !length_replicate. apply andb_true_intro.
    split; [apply Z.eqb_eq; lia|].
    destruct ((0 <=? height) && (height <? 2 ^ 32)) eqn:Hh;
      simpl in Hcol; [|done].
    apply andb_prop in Hh as [Hh%Z.leb_le _]. injection Hcol as <-.
    apply forallb_forall. intros c [-> _]%list_elem_of_In%elem_of_replicate.
    rewrite length_replicate. apply Z.eqb_eq. lia.
Qed.

Section CacheLifecycle.

Variable brensenhamArr : Datum * Datum -> Cache -> nat -> num -> Cache.

(** The line drawer writes into the cells it is given: it adds or
    removes no column and no cell. *)
Hypothesis brensenhamArr_dims : forall segment cache id k width height,
  has_dims cache width height = true ->
  has_dims (brensenhamArr segment cache id k) width height = true.

Lemma stamp_line_dims (line : Line) (id : nat) (cache : Cache)
    (width height : Z) :
  has_dims cache width height = true ->
  has_dims (stamp_line brensenhamArr line id cache) width height = true.
Proof using brensenhamArr_dims.
  revert cache. induction line as [|a rest IH]; intros cache H; [done|].
  destruct rest as [|b rest']; [done|].
  change (has_dims (stamp_line brensenhamArr (b :: rest') id
                      (brensenhamArr (a, b) cache id (slope a b)))
                   width height = true).
  apply IH. by apply brensenhamArr_dims.
Qed.

Lemma stamp_all_dims (raw : list Line) (cache : Cache) (width height : Z) :
  has_dims cache width height = true ->
  has_dims (stamp_all brensenhamArr raw cache) width height = true.
Proof using brensenhamArr_dims.
  unfold stamp_all. generalize (imap pair raw). intros entries.
  revert cache. induction entries as [|e entries IH]; intros cache H;
    simpl; [done|].
  apply IH. by apply stamp_line_dims.
Qed.


End CacheLifecycle.



(** *** The weight buffer *)

Lemma mapR_lookup {A B} (f : A -> result B) (l : list A) (r : list B)
    (i : nat) (b : B) :
  mapR f l = Ok r -> r !! i = Some b ->
  exists a, l !! i = Some a /\ f a = Ok b.
Proof.
  revert r i. induction l as [|c l IH]; intros r i; simpl.
  - by intros [= <-].
  - destruct (f c) as [d|] eqn:Hc; simpl; [|done].
    destruct (mapR f l) as [r'|]; simpl; [|done].
    intros [= <-]. destruct i as [|i]; simpl.
    + intros [= <-]. by exists c.
    + intros Hb. by apply (IH r').
Qed.

Lemma mapR_length {A B} (f : A -> result B) (l : list A) (r : list B) :
  mapR f l = Ok r -> length r = length l.
Proof.
  revert r. induction l as [|c l IH]; intros r; simpl.
  - by intros [= <-].
  - destruct (f c) as [d|]; simpl; [|done].
    destruct (mapR f l) as [r'|]; simpl; [|done].
    intros [= <-]. simpl. f_equal. by apply IH.
Qed.

(** Counting the entries of a pixel whose line is selected, from two
    counts in order, keeps the order when the selection grows. *)
Lemma count_monotone (A B : list nat) (pixelCache : Cell) (x y : Qc) :
  A ⊆ B -> (x <= y)%Qc ->
  nle (fold_left
         (fun p v => nadd p (if fastMapping A v.1 then ofZ 1 else ofZ 0))
         pixelCache (Fin x))
      (fold_left
         (fun p v => nadd p (if fastMapping B v.1 then ofZ 1 else ofZ 0))
         pixelCache (Fin y))
  = true.
Proof.
  intros Hsub. revert x y.
  induction pixelCache as [|[id k] cell IH]; intros x y Hxy; simpl.
  - unfold nle. simpl. destruct (Qc_cmp_spec x y); qc_order.
  - unfold fastMapping.
    destruct (bool_decide_reflect (id ∈ A)) as [HA|HA].
    + rewrite bool_decide_eq_true_2 by (by apply Hsub).
      apply IH. by apply Qcplus_le_compat.
    + destruct (bool_decide (id ∈ B)); apply IH;
        by apply Qcplus_le_compat.
Qed.

(** C7. Subset monotonicity: without normalization and over the same
    accumulator, the weight of every pixel for a selection of lines is at
    most its weight for a larger selection. *)
Theorem weight_subset_monotone (cache : Cache) (width height : Z)
    (A B : list nat) (bufA bufB : list num) (i : nat) (a b : num) :
  A ⊆ B ->
  tempBuffer cache width height false A = Ok bufA ->
  tempBuffer cache width height false B = Ok bufB ->
  bufA !! i = Some a -> bufB !! i = Some b ->
  nle a b = true.
Proof.
  intros Hsub HA HB Ha Hb.
  destruct (mapR_lookup _ _ _ _ _ HA Ha) as (n & Hn & Hwa).
  destruct (mapR_lookup _ _ _ _ _ HB Hb) as (n' & Hn' & Hwb).
  rewrite Hn in Hn'. injection Hn' as <-. cbv beta zeta in Hwa, Hwb.
  destruct (at_ cache (n / height)) as [column|]; simpl in *; [|done].
  destruct (at_ column (Z.rem n height)) as [pixelCache|]; simpl in *; [|done].
  injection Hwa as <-. injection Hwb as <-.
  apply count_monotone; [done | apply Qcle_refl].
Qed.

Lemma weight_subset_monotone_witness :
  nle (ofZ 1) (ofZ 2) = true.
Proof.
  apply (weight_subset_monotone
           [[[(0%nat, ofZ 3); (1%nat, ofZ 4)]]] 1 1
           [0%nat] [0%nat; 1%nat] [ofZ 1] [ofZ 2] 0%nat (ofZ 1) (ofZ 2)).
  - intros id ->%list_elem_of_singleton. apply list_elem_of_here.
  - vm_compute. reflexivity.
  - vm_compute. reflexivity.
  - reflexivity.
  - reflexivity.
Defined.

(** *** The image *)

Lemma num_eqb_eq (a b : num) : num_eqb a b = true -> a = b.
Proof.
  destruct a as [| |p|], b as [| |q|]; simpl; try done.
  intros H%Qeq_bool_iff. f_equal. by apply Qc_is_canon.
Qed.

Lemma num_eqb_refl (a : num) : num_eqb a a = true.
Proof. destruct a; simpl; try done. by apply Qeq_bool_iff. Qed.

Section PaintSpec.

Variable colormap : num -> Color.
Variable buf : list num.
Variable maxW : num.
Variable width height : Z.

Lemma offset_bound (i j : Z) :
  0 <= i < width -> 0 <= j < height ->
  0 <= (j * width + i) * 4 /\ (j * width + i) * 4 + 4 <= width * height * 4.
Proof. intros Hi Hj. nia. Qed.

Lemma offset_apart (i j i0 j0 : Z) :
  0 <= i < width -> 0 <= j < height ->
  0 <= i0 < width -> 0 <= j0 < height ->
  (i, j) <> (i0, j0) ->
  (offset width i j + 4 <= offset width i0 j0 \/ offset width i0 j0 + 4 <= offset width i j)%nat.
Proof.
  intros Hi Hj Hi0 Hj0 Hne. unfold offset.
  assert (j * width + i <> j0 * width + i0).
  { intros E. apply Hne.
    assert (j = j0) as -> by nia. f_equal. lia. }
  pose proof (offset_bound i j Hi Hj). pose proof (offset_bound i0 j0 Hi0 Hj0).
  lia.
Qed.

Lemma paint_spec (i j : Z) (cc cc' : ColorCache) (img img' : list Z) :
  0 <= i < width -> 0 <= j < height ->
  length img = Z.to_nat (width * height * 4) ->
  cc_sound colormap cc ->
  paint colormap buf maxW width height i j (cc, img) = Ok (cc', img') ->
  cc_sound colormap cc' /\ length img' = length img /\ pixel_ok colormap buf maxW width height img' i j
  /\ forall n, (n < offset width i j \/ offset width i j + 4 <= n)%nat ->
               img' !! n = img !! n.
Proof.
  intros Hi Hj Hlen Hcc. unfold paint.
  set (ratio := ratio_at buf maxW height i j).
  set (cc1 := match cc_get cc ratio with
              | Some _ => cc
              | None => (ratio, colormap (ndiv ratio (ofZ 10000))) :: cc
              end).
  assert (Hcc1 : cc_sound colormap cc1
                 /\ cc_get cc1 ratio
                    = Some (colormap (ndiv ratio (ofZ 10000)))).
  { subst cc1. destruct (cc_get cc ratio) as [c|] eqn:Hget.
    - split; [done|]. by rewrite Hget, (Hcc _ _ Hget).
    - split.
      + intros r c. simpl.
        destruct (num_eqb ratio r) eqn:E; [|by apply Hcc].
        apply num_eqb_eq in E as <-. by intros [= <-].
      + simpl. by rewrite num_eqb_refl. }
  destruct Hcc1 as [Hsound ->]. simpl.
  pose proof (offset_bound i j Hi Hj) as [Hlo Hhi].
  unfold set3. rewrite Hlen.
  destruct (Z.leb_spec 0 ((j * width + i) * 4)); [|lia].
  destruct (Z.leb_spec ((j * width + i) * 4 + 3)
              (Z.of_nat (Z.to_nat (width * height * 4)))); [|lia].
  simpl. unfold store.
  destruct (Z.ltb_spec ((j * width + i) * 4 + 3) 0); [lia|].
  replace (Z.to_nat ((j * width + i) * 4 + 3))
    with (offset width i j + 3)%nat by (unfold offset; lia).
  fold (offset width i j). intros [= <- <-].
  assert (Hin : (offset width i j + 4 <= length img)%nat)
    by (unfold offset; lia).
  split; [done|]. split; [by rewrite !length_insert|]. split.
  - unfold pixel_ok. fold ratio. simpl. split_and!.
    + rewrite !list_lookup_insert_ne by lia.
      by rewrite list_lookup_insert_eq by lia.
    + rewrite !list_lookup_insert_ne by lia.
      by rewrite list_lookup_insert_eq by (rewrite ?length_insert; lia).
    + rewrite !list_lookup_insert_ne by lia.
      by rewrite list_lookup_insert_eq by (rewrite ?length_insert; lia).
    + by rewrite list_lookup_insert_eq by (rewrite ?length_insert; lia).
  - intros n Hn. by rewrite !list_lookup_insert_ne by lia.
Qed.

Lemma inner_loop (i0 : Z) (n : nat) (j0 : Z) (st st' : ColorCache * list Z) :
  0 <= i0 < width -> 0 <= j0 -> j0 + Z.of_nat n <= height ->
  painted_before colormap buf maxW width height i0 j0 st ->
  foldR (paint colormap buf maxW width height i0) (seqZ j0 (Z.of_nat n)) st
    = Ok st' ->
  painted_before colormap buf maxW width height i0 (j0 + Z.of_nat n) st'.
Proof.
  intros Hi0. revert j0 st.
  induction n as [|n IH]; intros j0 st Hj0 Hn Hinv.
  - simpl. intros [= <-]. by rewrite Z.add_0_r.
  - rewrite seqZ_cons by lia.
    replace (Z.pred (Z.of_nat (S n))) with (Z.of_nat n) by lia.
    simpl.
    destruct (paint _ _ _ _ _ i0 j0 st) as [st1|] eqn:Hp; simpl; [|done].
    intros Hrest.
    replace (j0 + Z.of_nat (S n)) with (Z.succ j0 + Z.of_nat n) by lia.
    apply (IH (Z.succ j0) st1); [lia | lia | | done].
    destruct st as [cc img], st1 as [cc1 img1].
    destruct Hinv as (Hcc & Hlen & Hpix). simpl in *.
    destruct (paint_spec i0 j0 cc cc1 img img1)
      as (Hcc1 & Hlen1 & Hok & Hframe); [lia | lia | done | done | done |].
    unfold painted_before. simpl.
    split; [done|]. split; [by rewrite Hlen1|].
    intros i j Hi Hj Hbefore.
    destruct (decide ((i, j) = (i0, j0))) as [[= -> ->]|Hne]; [done|].
    assert (Hold : pixel_ok colormap buf maxW width height img i j).
    { apply Hpix; [done | done |].
      destruct Hbefore as [?|[-> ?]]; [by left|]. right.
      split; [done|]. destruct (Z.eq_dec j j0) as [->|]; [done | lia]. }
    assert (Hapart : (offset width i j + 4 <= offset width i0 j0
                      \/ offset width i0 j0 + 4 <= offset width i j)%nat)
      by (apply offset_apart; [done | done | lia | lia | done]).
    destruct Hold as (H0 & H1 & H2 & H3).
    unfold pixel_ok.
    rewrite !Hframe by lia. done.
Qed.

Lemma outer_loop (n : nat) (i0 : Z) (st st' : ColorCache * list Z) :
  0 <= height -> 0 <= i0 -> i0 + Z.of_nat n <= width ->
  painted_before colormap buf maxW width height i0 0 st ->
  foldR (fun i st =>
           foldR (paint colormap buf maxW width height i) (seqZ 0 height) st)
        (seqZ i0 (Z.of_nat n)) st
    = Ok st' ->
  painted_before colormap buf maxW width height (i0 + Z.of_nat n) 0 st'.
Proof.
  intros Hh. revert i0 st.
  induction n as [|n IH]; intros i0 st Hi0 Hn Hinv.
  - simpl. intros [= <-]. by rewrite Z.add_0_r.
  - rewrite (seqZ_cons i0) by lia.
    replace (Z.pred (Z.of_nat (S n))) with (Z.of_nat n) by lia.
    simpl.
    destruct (foldR _ (seqZ 0 height) st) as [st1|] eqn:Hin; simpl; [|done].
    intros Hrest.
    replace (i0 + Z.of_nat (S n)) with (Z.succ i0 + Z.of_nat n) by lia.
    apply (IH (Z.succ i0) st1); [lia | lia | | done].
    pose proof (inner_loop i0 (Z.to_nat height) 0 st st1) as Hinner.
    rewrite Z2Nat.id in Hinner by done.
    destruct Hinner as (Hcc & Hlen & Hpix); [lia | lia | lia | done | done |].
    split; [done|]. split; [done|].
    intros i j Hi Hj Hbefore. apply Hpix; [done | done | lia].
Qed.

(** After the two loops every pixel of the image is painted. *)
Lemma paint_all_spec (st : ColorCache * list Z) :
  0 <= width -> 0 <= height ->
  paint_all colormap buf maxW width height = Ok st ->
  length st.2 = Z.to_nat (width * height * 4)
  /\ forall i j, 0 <= i < width -> 0 <= j < height -> pixel_ok colormap buf maxW width height st.2 i j.
Proof.
  intros Hw Hh. unfold paint_all. intros H.
  pose proof (outer_loop (Z.to_nat width) 0
                ([], replicate (Z.to_nat (width * height * 4)) 0) st) as Hout.
  rewrite Z2Nat.id in Hout by done.
  destruct Hout as (_ & Hlen & Hpix); [done | lia | lia | | done |].
  - unfold painted_before. simpl.
    split; [done|]. split; [by rewrite length_replicate|].
    intros i j Hi Hj. lia.
  - split; [done|].
    intros i j Hi Hj. apply Hpix; [done | done | lia].
Qed.

End PaintSpec.

(** *** The maximum weight *)

Lemma nle_refl (a : num) : is_nan a = false -> nle a a = true.
Proof.
  destruct a as [| |p|]; simpl; try done. intros _. unfold nle. simpl.
  destruct (Qc_cmp_spec p p); qc_order.
Qed.

Lemma nle_trans (a b c : num) :
  nle a b = true -> nle b c = true -> nle a c = true.
Proof.
  unfold nle.
  destruct a as [| |p|], b as [| |q|], c as [| |r|]; simpl; try done.
  destruct (Qc_cmp_spec p q), (Qc_cmp_spec q r), (Qc_cmp_spec p r); qc_order.
Qed.

Lemma nmax_spec (a b : num) :
  is_nan a = false -> is_nan b = false ->
  is_nan (nmax a b) = false /\ (nmax a b = a \/ nmax a b = b)
  /\ nle a (nmax a b) = true /\ nle b (nmax a b) = true.
Proof.
  unfold nmax, nle.
  destruct a as [| |p|], b as [| |q|]; simpl; try done; intros _ _;
    repeat (qc_cases; simpl); split_and!; auto; qc_order.
Qed.

Lemma fold_nmax_spec (rest : list num) (p : num) :
  is_nan p = false -> Forall (fun w => is_nan w = false) rest ->
  is_nan (fold_left nmax rest p) = false
  /\ (fold_left nmax rest p = p \/ fold_left nmax rest p ∈ rest)
  /\ nle p (fold_left nmax rest p) = true
  /\ forall w, w ∈ rest -> nle w (fold_left nmax rest p) = true.
Proof.
  revert p. induction rest as [|v rest IH]; intros p Hp Hrest; simpl.
  - split_and!; [done | by left | by apply nle_refl |].
    intros w Hw. by apply not_elem_of_nil in Hw.
  - apply Forall_cons in Hrest as [Hv Hrest].
    destruct (nmax_spec p v Hp Hv) as (Hm & Hor & Hpm & Hvm).
    destruct (IH (nmax p v) Hm Hrest) as (Hnan & Hin & Hle & Hall).
    split_and!; [done | | by eapply nle_trans |].
    + destruct Hin as [->|Hin]; [|right; by apply list_elem_of_further].
      destruct Hor as [->| ->]; [by left | right; apply list_elem_of_here].
    + intros w [->|Hw]%elem_of_cons; [by eapply nle_trans | by apply Hall].
Qed.

(** Without NaN among them, [reduce_max] returns the largest weight. *)
Lemma reduce_max_spec (buf : list num) (m : num) :
  reduce_max buf = Ok m -> Forall (fun w => is_nan w = false) buf ->
  m ∈ buf /\ forall w, w ∈ buf -> nle w m = true.
Proof.
  destruct buf as [|p rest]; simpl; [done|].
  intros [= <-] [Hp Hrest]%Forall_cons.
  destruct (fold_nmax_spec rest p Hp Hrest) as (_ & Hin & Hle & Hall).
  split.
  - destruct Hin as [->|Hin];
      [apply list_elem_of_here | by apply list_elem_of_further].
  - intros w [->|Hw]%elem_of_cons; [done | by apply Hall].
Qed.

(** *** Alpha and the weight *)

Lemma dims_nonneg (t : AliTVSTree) (width height : Z) :
  dims t = Ok (width, height) -> 0 <= width /\ 0 <= height.
Proof.
  unfold dims.
  destruct (reduce_sub (range (_xScale t))); simpl; [|done].
  destruct (reduce_sub (range (_yScale t))); simpl; [|done].
  intros [= <- <-]. lia.
Qed.

(** With normalization, on the instance above, the first pixel has the
    weight 1/100000, which is positive, under a maximum of 1: its ratio
    rounds to 0 and its alpha is 0. *)
Lemma render_faint_pixel_transparent :
  returned (render draw_nothing red_ramp true (Some [0%nat])) faint_tree
    = Ok faint_out
  /\ tempBuffer faint_cache 1 2 true [0%nat]
     = Ok [Fin (Q2Qc (1 # 100000)); ofZ 1]
  /\ ngt (Fin (Q2Qc (1 # 100000))) (ofZ 0) = true
  /\ image faint_out !! 3%nat = Some 0.
Proof.
  vm_compute. done.
Qed.

(** C6. Alpha and the sign of the weight: the claim asks for alpha 0 when
    the weight of a pixel is at most 0.  The alpha of line 459 is chosen
    on the rounded ratio, not on the weight, and the ratio is a quotient
    by [maxWeight]: on the same instance with no line selected both
    weights are 0, [maxWeight] is 0, each ratio is 0/0, which is NaN, and
    [NaN <= 0] is false, so both pixels are written with alpha 255. *)
Theorem render_zero_weight_opaque :
  returned (render draw_nothing red_ramp false (Some [])) faint_tree
    = Ok {| maxWeight := ofZ 0; image := [0; 0; 0; 255; 0; 0; 0; 255] |}
  /\ tempBuffer faint_cache 1 2 false [] = Ok [ofZ 0; ofZ 0]
  /\ nle (ofZ 0) (ofZ 0) = true
  /\ ratio_at [ofZ 0; ofZ 0] (ofZ 0) 2 0 0 = NaN
  /\ nle NaN (ofZ 0) = false.
Proof.
  vm_compute. done.
Qed.

(** * Further properties *)

(** ** The binary searches against linear search *)

Lemma first_index_Some (f : Datum -> bool) (line : Line) (k : nat) :
  first_index f line = Some k ->
  (exists p, line !! k = Some p /\ f p = true)
  /\ forall i q, (i < k)%nat -> line !! i = Some q -> f q = false.
Proof.
  revert k. induction line as [|p rest IH]; intros k; simpl; [done|].
  destruct (f p) eqn:Hp.
  - intros [= <-]. split; [by exists p | intros i q Hi; lia].
  - destruct (first_index f rest) as [k'|]; [|done].
    intros [= <-]. destruct (IH k' eq_refl) as [Hk Hbefore].
    split; [done|]. intros [|i] q Hi Hq; simpl in Hq.
    + by injection Hq as <-.
    + apply (Hbefore i); [lia | done].
Qed.

Lemma first_index_None (f : Datum -> bool) (line : Line) :
  first_index f line = None ->
  forall i q, line !! i = Some q -> f q = false.
Proof.
  induction line as [|p rest IH]; simpl; [done|].
  destruct (f p) eqn:Hp; [done|].
  destruct (first_index f rest); [done|].
  intros _ [|i] q Hq; simpl in Hq; [by injection Hq as <- | by apply (IH eq_refl i)].
Qed.

Lemma last_index_Some (f : Datum -> bool) (line : Line) (k : nat) :
  last_index f line = Some k ->
  (exists p, line !! k = Some p /\ f p = true)
  /\ forall i q, (k < i)%nat -> line !! i = Some q -> f q = false.
Proof.
  revert k. induction line as [|p rest IH]; intros k; simpl; [done|].
  destruct (last_index f rest) as [k'|] eqn:Hrest.
  - intros [= <-]. destruct (IH k' eq_refl) as [Hk Hafter].
    split; [done|]. intros [|i] q Hi Hq; [lia|]. simpl in Hq.
    apply (Hafter i); [lia | done].
  - destruct (f p) eqn:Hp; [|done]. intros [= <-].
    split; [by exists p|]. intros [|i] q Hi Hq; [lia|]. simpl in Hq.
    revert Hrest Hq. clear. revert i.
    induction rest as [|r rest IH]; intros i; simpl; [done|].
    destruct (last_index f rest) eqn:E; [done|].
    destruct (f r) eqn:Hr; [done|]. intros _.
    destruct i as [|i]; simpl; [by intros [= <-] | by apply IH].
Qed.

Lemma last_index_None (f : Datum -> bool) (line : Line) :
  last_index f line = None ->
  forall i q, line !! i = Some q -> f q = false.
Proof.
  induction line as [|p rest IH]; simpl; [done|].
  destruct (last_index f rest); [done|].
  destruct (f p) eqn:Hp; [done|].
  intros _ [|i] q Hq; simpl in Hq; [by injection Hq as <- | by apply (IH eq_refl i)].
Qed.

Section SearchExact.

Variable line : Line.
Hypothesis Hasc : ascending line = true.
Hypothesis Hshort : short line = true.

Lemma search_lp_exact (fuel : nat) (minX : num) (l r lp : Z) :
  0 <= l <= r + 1 -> r < Z.of_nat (length line) ->
  r - l + 1 < Z.of_nat fuel ->
  (forall i p, at_ line i = Some p -> i < l -> nge (Fin (px p)) minX = false) ->
  (forall i p, at_ line i = Some p -> r < i -> nge (Fin (px p)) minX = true) ->
  (r < Z.of_nat (length line) - 1 -> lp = r + 1) ->
  (r = Z.of_nat (length line) - 1 -> lp = 0) ->
  exists res,
    search_lp fuel line minX l r lp = Ok res
    /\ ((exists p, at_ line res = Some p /\ nge (Fin (px p)) minX = true
         /\ forall i q, at_ line i = Some q -> i < res ->
                        nge (Fin (px q)) minX = false)
        \/ (res = 0
            /\ forall i q, at_ line i = Some q ->
                           nge (Fin (px q)) minX = false)).
Proof using Hasc Hshort.
  pose proof Hshort as Hlen. apply Z.leb_le in Hlen.
  revert l r lp.
  induction fuel as [|fuel IH]; intros l r lp Hl Hr Hfuel Hlow Hhigh Hlp1 Hlp0;
    simpl; [lia|].
  destruct (Z.leb_spec l r) as [Hlr|Hlr].
  - rewrite sar1_half by lia.
    assert (Hmid : l <= (l + r) / 2 <= r).
    { split; [apply Z.div_le_lower_bound | apply Z.div_le_upper_bound]; lia. }
    destruct (at_is_Some line ((l + r) / 2)) as [m Hm]; [lia|].
    rewrite Hm. simpl.
    destruct (nge (Fin (px m)) minX) eqn:Hge.
    + apply IH; try lia; try done.
      intros i p Hi Hlt.
      apply (nge_Fin_mono (px m) (px p)); [|done].
      apply (ascending_at line ((l + r) / 2) i); [done | done | done | lia].
    + apply IH; try lia; try done.
      intros i p Hi Hlt.
      destruct (nge (Fin (px p)) minX) eqn:Hp; [|done].
      rewrite (nge_Fin_mono (px p) (px m) minX) in Hge; [done | | done].
      apply (ascending_at line i ((l + r) / 2)); [done | done | done | lia].
  - exists lp. split; [done|].
    destruct (Z.eq_dec r (Z.of_nat (length line) - 1)) as [Hend|Hend].
    + right. split; [by apply Hlp0|].
      intros i q Hi. apply (Hlow i q Hi). apply at_lt in Hi. lia.
    + left. rewrite Hlp1 by lia.
      destruct (at_is_Some line (r + 1)) as [p Hp]; [lia|].
      exists p. split_and!; [done | apply (Hhigh (r + 1)); [done | lia] |].
      intros i q Hi Hlt. apply (Hlow i q Hi). lia.
Qed.

Lemma search_rp_exact (fuel : nat) (maxX : num) (l r rp : Z) :
  0 <= l <= r + 1 -> r < Z.of_nat (length line) ->
  r - l + 1 < Z.of_nat fuel ->
  (forall i p, at_ line i = Some p -> i < l -> nle (Fin (px p)) maxX = true) ->
  (forall i p, at_ line i = Some p -> r < i -> nle (Fin (px p)) maxX = false) ->
  (0 < l -> rp = l - 1) ->
  (l = 0 -> rp = Z.of_nat (length line) - 1) ->
  exists res,
    search_rp fuel line maxX l r rp = Ok res
    /\ ((exists p, at_ line res = Some p /\ nle (Fin (px p)) maxX = true
         /\ forall i q, at_ line i = Some q -> res < i ->
                        nle (Fin (px q)) maxX = false)
        \/ (res = Z.of_nat (length line) - 1
            /\ forall i q, at_ line i = Some q ->
                           nle (Fin (px q)) maxX = false)).
Proof using Hasc Hshort.
  pose proof Hshort as Hlen. apply Z.leb_le in Hlen.
  revert l r rp.
  induction fuel as [|fuel IH]; intros l r rp Hl Hr Hfuel Hlow Hhigh Hrp1 Hrp0;
    simpl; [lia|].
  destruct (Z.leb_spec l r) as [Hlr|Hlr].
  - rewrite sar1_half by lia.
    assert (Hmid : l <= (l + r) / 2 <= r).
    { split; [apply Z.div_le_lower_bound | apply Z.div_le_upper_bound]; lia. }
    destruct (at_is_Some line ((l + r) / 2)) as [m Hm]; [lia|].
    rewrite Hm. simpl.
    destruct (nle (Fin (px m)) maxX) eqn:Hle.
    + apply IH; try lia; try done.
      intros i p Hi Hlt.
      apply (nle_Fin_mono (px p) (px m)); [|done].
      apply (ascending_at line i ((l + r) / 2)); [done | done | done | lia].
    + apply IH; try lia; try done.
      intros i p Hi Hlt.
      destruct (nle (Fin (px p)) maxX) eqn:Hp; [|done].
      rewrite (nle_Fin_mono (px m) (px p) maxX) in Hle; [done | | done].
      apply (ascending_at line ((l + r) / 2) i); [done | done | done | lia].
  - exists rp. split; [done|].
    destruct (Z.eq_dec l 0) as [Hstart|Hstart].
    + right. split; [by apply Hrp0|].
      intros i q Hi. apply (Hhigh i q Hi). apply at_lt in Hi. lia.
    + left. rewrite Hrp1 by lia.
      destruct (at_is_Some line (l - 1)) as [p Hp]; [lia|].
      exists p. split_and!; [done | apply (Hlow (l - 1)); [done | lia] |].
      intros i q Hi Hlt. apply (Hhigh i q Hi). lia.
Qed.

End SearchExact.

Lemma at_of_nat {A} (a : list A) (i : nat) : at_ a (Z.of_nat i) = a !! i.
Proof.
  unfold at_. destruct (Z.ltb_spec (Z.of_nat i) 0); [lia|]. by rewrite Nat2Z.id.
Qed.

(** X1. On a line in ascending x of at most 2^30 points, the first binary
    search returns what a linear search returns: the index of the first
    point with [x >= minX], and 0 when there is none. *)
Theorem find_lp_is_first (line : Line) (minX : num) :
  ascending line = true -> short line = true ->
  find_lp line minX
  = Ok (match first_index (fun p => nge (Fin (px p)) minX) line with
        | Some k => Z.of_nat k
        | None => 0
        end).
Proof.
  intros Hasc Hshort.
  destruct (search_lp_exact line Hasc Hshort (S (length line)) minX 0
              (Z.of_nat (length line) - 1) 0)
    as (res & Hres & Hspec); try lia.
  - intros i p Hi%at_lt. lia.
  - intros i p Hi%at_lt. lia.
  - unfold find_lp. rewrite Hres. f_equal.
    destruct (first_index _ line) as [k|] eqn:Hfirst.
    + apply first_index_Some in Hfirst as [(p & Hp & Hfp) Hbefore].
      destruct Hspec as [(q & Hq & Hfq & Hleast)|[_ Hnone]].
      * destruct (Z.lt_trichotomy res (Z.of_nat k)) as [Hlt|[->|Hgt]]; [|done|].
        -- pose proof (at_lt _ _ _ Hq). rewrite <- (Z2Nat.id res) in Hq by lia.
           rewrite (at_of_nat line) in Hq.
           rewrite (Hbefore (Z.to_nat res) q) in Hfq; [done | lia | done].
        -- apply (eq_trans (at_of_nat line k)) in Hp.
           by rewrite (Hleast (Z.of_nat k) p Hp Hgt) in Hfp.
      * apply (eq_trans (at_of_nat line k)) in Hp. by rewrite (Hnone _ p Hp) in Hfp.
    + destruct Hspec as [(q & Hq & Hfq & _)|[-> _]]; [|done].
      pose proof (at_lt _ _ _ Hq). rewrite <- (Z2Nat.id res) in Hq by lia.
      rewrite (at_of_nat line) in Hq.
      by rewrite (first_index_None _ _ Hfirst _ q Hq) in Hfq.
Qed.

Lemma find_lp_is_first_witness :
  find_lp sample_line (ofZ 9) = Ok 1.
Proof.
  apply (find_lp_is_first sample_line (ofZ 9)); reflexivity.
Defined.

(** X2. On a line in ascending x of at most 2^30 points, the second
    binary search returns the index of the last point with [x <= maxX],
    and the last index of the line when there is none. *)
Theorem find_rp_is_last (line : Line) (maxX : num) :
  ascending line = true -> short line = true ->
  find_rp line maxX
  = Ok (match last_index (fun p => nle (Fin (px p)) maxX) line with
        | Some k => Z.of_nat k
        | None => Z.of_nat (length line) - 1
        end).
Proof.
  intros Hasc Hshort.
  destruct (search_rp_exact line Hasc Hshort (S (length line)) maxX 0
              (Z.of_nat (length line) - 1) (Z.of_nat (length line) - 1))
    as (res & Hres & Hspec); try lia.
  - intros i p Hi%at_lt. lia.
  - intros i p Hi%at_lt. lia.
  - unfold find_rp. rewrite Hres. f_equal.
    destruct (last_index _ line) as [k|] eqn:Hlast.
    + apply last_index_Some in Hlast as [(p & Hp & Hfp) Hafter].
      destruct Hspec as [(q & Hq & Hfq & Hgreatest)|[_ Hnone]].
      * destruct (Z.lt_trichotomy res (Z.of_nat k)) as [Hlt|[->|Hgt]]; [|done|].
        -- apply (eq_trans (at_of_nat line k)) in Hp.
           by rewrite (Hgreatest (Z.of_nat k) p Hp Hlt) in Hfp.
        -- pose proof (at_lt _ _ _ Hq). rewrite <- (Z2Nat.id res) in Hq by lia.
           rewrite (at_of_nat line) in Hq.
           rewrite (Hafter (Z.to_nat res) q) in Hfq; [done | lia | done].
      * apply (eq_trans (at_of_nat line k)) in Hp. by rewrite (Hnone _ p Hp) in Hfp.
    + destruct Hspec as [(q & Hq & Hfq & _)|[-> _]]; [|done].
      pose proof (at_lt _ _ _ Hq). rewrite <- (Z2Nat.id res) in Hq by lia.
      rewrite (at_of_nat line) in Hq.
      by rewrite (last_index_None _ _ Hlast _ q Hq) in Hfq.
Qed.

Lemma find_rp_is_last_witness :
  find_rp sample_line (ofZ 15) = Ok 1.
Proof.
  apply (find_rp_is_last sample_line (ofZ 15)); reflexivity.
Defined.

(** ** The five cases of [getPixelData] together *)

Lemma getPixelData_geometric mix atan (options : FilterOption)
    (filter : option (Line -> bool)) (t : AliTVSTree) :
  match options with AttrOpt _ _ => False | _ => True end ->
  getPixelData mix atan options filter t
  = ((let* resultData :=
        refine (_raw t) (callback mix atan options)
               (candidates (_kdtree t) options) in
      Ok (post filter resultData)), t).
Proof.
  intros Hgeo. unfold getPixelData, bind, read, lift, ret.
  destruct options; simpl; try done;
    destruct (refine _ _ _); destruct filter; reflexivity.
Qed.

Lemma all_allowed_spec (field : string) (values : list value) (line : Line) :
  negb (existsb (fun point => negb (includes values (attr point field))) line)
  = all_allowed field values line.
Proof.
  unfold all_allowed. induction line as [|p rest IH]; simpl; [done|].
  rewrite <- IH. by destruct (includes values (attr p field)).
Qed.

Lemma getPixelData_Attr mix atan (field : string) (values : list value)
    (filter : option (Line -> bool)) (t : AliTVSTree) :
  getPixelData mix atan (AttrOpt field values) filter t
  = (Ok (post filter (List.filter (all_allowed field values) (_raw t))), t).
Proof.
  unfold getPixelData, bind, read, lift, ret. simpl.
  assert (Heq : List.filter
                  (fun line =>
                     negb (existsb
                             (fun point => negb (includes values (attr point field)))
                             line)) (_raw t)
                = List.filter (all_allowed field values) (_raw t)).
  { apply filter_ext. intros line. apply all_allowed_spec. }
  rewrite Heq. by destruct filter.
Qed.

(** X3. Every line that [getPixelData] returns, in any of its five cases
    and with or without a post-filter, is one of the raw lines of the
    instance. *)
Theorem getPixelData_returns_raw_lines mix atan (options : FilterOption)
    (filter : option (Line -> bool)) (t : AliTVSTree) (res : list Line)
    (k : nat) (line : Line) :
  returned (getPixelData mix atan options filter) t = Ok res ->
  res !! k = Some line ->
  exists i, _raw t !! i = Some line.
Proof.
  unfold returned. intros Hres Hk%list_elem_of_lookup_2.
  destruct options.
  5:{ rewrite getPixelData_Attr in Hres. simpl in Hres. injection Hres as <-.
      apply post_elem, list_elem_of_In, filter_In in Hk as [Hraw _].
      by apply list_elem_of_In, list_elem_of_lookup_1 in Hraw. }
  all: rewrite getPixelData_geometric in Hres by done; simpl in Hres;
    destruct (refine _ _ _) as [resultData|] eqn:Href; simpl in Hres; [|done];
    injection Hres as <-; apply post_elem in Hk;
    destruct (refine_elem _ _ _ _ _ Href Hk) as [_ (id & _ & Hid)]; eauto.
Qed.

Lemma getPixelData_returns_raw_lines_witness :
  exists i, _raw sample_tree !! i = Some sample_line.
Proof.
  apply (getPixelData_returns_raw_lines None (fun a => a)
           (BrushX (ofZ 0) (ofZ 20)) None sample_tree [sample_line]
           0%nat sample_line);
    vm_compute; reflexivity.
Defined.

(** X4. The post-filter is applied to what the query returns without it,
    in every case: it removes lines from the result, and changes neither
    which lines the geometry selects nor whether the query throws. *)
Theorem post_filter_after_query mix atan (options : FilterOption)
    (f : Line -> bool) (t : AliTVSTree) :
  returned (getPixelData mix atan options (Some f)) t
  = (let* resultData := returned (getPixelData mix atan options None) t in
     Ok (List.filter f resultData)).
Proof.
  unfold returned. destruct options.
  5:{ by rewrite !getPixelData_Attr. }
  all: rewrite !getPixelData_geometric by done; simpl;
    by destruct (refine _ _ _).
Qed.

(** X5. The attribute case: a raw line is returned exactly when each of
    its points has, in the field, a value equal to one of the allowed
    values; the index is not asked, and the query returns in any case. *)
Theorem attr_query_membership mix atan (field : string) (values : list value)
    (t : AliTVSTree) :
  exists res,
    returned (getPixelData mix atan (AttrOpt field values) None) t = Ok res
    /\ forall line,
         line ∈ res
         <-> line ∈ _raw t
             /\ forall point, point ∈ line ->
                  exists v, v ∈ values /\ value_eqb (attr point field) v = true.
Proof.
  unfold returned. rewrite getPixelData_Attr. simpl.
  eexists. split; [done|]. intros line.
  rewrite list_elem_of_In, filter_In, <- list_elem_of_In.
  unfold all_allowed, includes. rewrite forallb_forall.
  split; intros [Hraw Hall]; (split; [done|]); intros point Hp.
  - apply list_elem_of_In, Hall, existsb_exists in Hp as (v & Hv & Heq).
    exists v. by rewrite list_elem_of_In.
  - apply list_elem_of_In, Hall in Hp as (v & Hv & Heq).
    apply existsb_exists. exists v. by rewrite <- list_elem_of_In.
Qed.

(** ** The brush-y case *)

Lemma nge_NInf (q : Qc) : nge (Fin q) NInf = true.
Proof. done. Qed.

Lemma nle_PInf (q : Qc) : nle (Fin q) PInf = true.
Proof. done. Qed.

Lemma search_lp_unbounded (line : Line) (fuel : nat) (l r lp : Z) :
  short line = true ->
  0 <= l <= r + 1 -> r < Z.of_nat (length line) ->
  r - l + 1 < Z.of_nat fuel ->
  search_lp fuel line NInf l r lp = Ok (if l <=? r then l else lp).
Proof.
  intros Hshort%Z.leb_le. revert l r lp.
  induction fuel as [|fuel IH]; intros l r lp Hl Hr Hfuel; simpl; [lia|].
  destruct (Z.leb_spec l r) as [Hlr|Hlr]; [|done].
  rewrite sar1_half by lia.
  assert (Hmid : l <= (l + r) / 2 <= r).
  { split; [apply Z.div_le_lower_bound | apply Z.div_le_upper_bound]; lia. }
  destruct (at_is_Some line ((l + r) / 2)) as [m ->]; [lia|]. simpl.
  rewrite IH by lia.
  destruct (Z.leb_spec l ((l + r) / 2 - 1)); [done | f_equal; lia].
Qed.

Lemma search_rp_unbounded (line : Line) (fuel : nat) (l r rp : Z) :
  short line = true ->
  0 <= l <= r + 1 -> r < Z.of_nat (length line) ->
  r - l + 1 < Z.of_nat fuel ->
  search_rp fuel line PInf l r rp = Ok (if l <=? r then r else rp).
Proof.
  intros Hshort%Z.leb_le. revert l r rp.
  induction fuel as [|fuel IH]; intros l r rp Hl Hr Hfuel; simpl; [lia|].
  destruct (Z.leb_spec l r) as [Hlr|Hlr]; [|done].
  rewrite sar1_half by lia.
  assert (Hmid : l <= (l + r) / 2 <= r).
  { split; [apply Z.div_le_lower_bound | apply Z.div_le_upper_bound]; lia. }
  destruct (at_is_Some line ((l + r) / 2)) as [m ->]; [lia|]. simpl.
  rewrite IH by lia.
  destruct (Z.leb_spec ((l + r) / 2 + 1) r); [done | f_equal; lia].
Qed.

Lemma scan_y_forallb (pre suf : Line) (minY maxY : num) :
  scan_y (length suf) (pre ++ suf) minY maxY (Z.of_nat (length pre))
  = Ok (forallb (y_inside minY maxY) suf).
Proof.
  revert pre. induction suf as [|p suf IH]; intros pre; simpl; [done|].
  rewrite at_of_nat, list_lookup_middle by done. simpl.
  unfold y_inside at 1.
  destruct (nlt (Fin (py p)) minY || ngt (Fin (py p)) maxY); simpl; [done|].
  replace (Z.of_nat (length pre) + 1) with (Z.of_nat (length (pre ++ [p])))
    by (rewrite length_app; simpl; lia).
  rewrite (cons_middle p pre suf), app_assoc. apply IH.
Qed.

(** With the x bounds at the two infinities the callback is the y test
    on every point of the line. *)
Lemma brushFilter_y mix (line : Line) (minY maxY : num) :
  short line = true ->
  brushFilter mix line NInf minY PInf maxY
  = Ok (forallb (y_inside minY maxY) line).
Proof.
  intros Hshort. unfold brushFilter, find_lp, find_rp.
  rewrite search_lp_unbounded, search_rp_unbounded by (done || lia). simpl.
  assert (Hlp : (if 0 <=? Z.of_nat (length line) - 1 then 0 else 0) = 0)
    by (by destruct (0 <=? _)).
  assert (Hrp : (if 0 <=? Z.of_nat (length line) - 1
                 then Z.of_nat (length line) - 1
                 else Z.of_nat (length line) - 1)
                = Z.of_nat (length line) - 1)
    by (by destruct (0 <=? _)).
  rewrite Hlp, Hrp.
  replace (Z.to_nat (Z.of_nat (length line) - 1 - 0 + 1)) with (length line)
    by lia.
  pose proof (scan_y_forallb [] line minY maxY) as Hscan.
  change (scan_y (length line) line minY maxY 0
          = Ok (forallb (y_inside minY maxY) line)) in Hscan.
  rewrite Hscan. simpl.
  destruct (forallb (y_inside minY maxY) line); simpl; [|done].
  by rewrite Z.ltb_irrefl.
Qed.

Lemma refine_exact (raw : list Line) (accept : Line -> result bool)
    (b : Line -> bool) (cands : list nat) (lines : list Line) :
  mapR (fun id => deref (raw !! id)) cands = Ok lines ->
  (forall line, line ∈ lines -> accept line = Ok (b line)) ->
  refine raw accept cands = Ok (List.filter b lines).
Proof.
  intros Hmap Hacc. unfold refine.
  assert (H : exists indices,
             filterR (fun id => let* line := deref (raw !! id) in accept line)
                     cands = Ok indices
             /\ mapR (fun index => deref (raw !! index)) indices
                = Ok (List.filter b lines)).
  { revert lines Hmap Hacc.
    induction cands as [|id cs IH]; intros lines; simpl.
    - intros [= <-] _. by exists [].
    - destruct (raw !! id) as [line|] eqn:Hid; simpl; [|done].
      destruct (mapR _ cs) as [ls|] eqn:Hcs; simpl; [|done].
      intros [= <-] Hacc.
      destruct (IH ls eq_refl) as (indices & -> & Hind).
      { intros l Hl. apply Hacc. by apply list_elem_of_further. }
      rewrite Hacc by apply list_elem_of_here. simpl.
      destruct (b line); eexists; (split; [done|]); simpl; [|done].
      by rewrite Hid, Hind. }
  destruct H as (indices & -> & Hind). done.
Qed.

(** X6. The brush-y case, on lines whose points have a number for x, as
    every [Datum] has: on candidates of at most 2^30 points the query
    returns exactly the candidates all of whose points pass the y test
    (neither [y < lowY] nor [y > highY]), in the order of the index.
    Every x being at or between the two infinities, the searches end at
    the first and at the last index and no crossing is tested: the result
    is the same whether [mix] is bound or not. *)
Theorem brush_y_is_y_test mix atan (t : AliTVSTree) (lowY highY : num)
    (filter : option (Line -> bool)) (lines : list Line) :
  mapR (fun id => deref (_raw t !! id))
       (brush (_kdtree t) (NInf, lowY) (PInf, highY)) = Ok lines ->
  forallb short lines = true ->
  returned (getPixelData mix atan (BrushY lowY highY) filter) t
  = Ok (post filter (List.filter (forallb (y_inside lowY highY)) lines)).
Proof.
  intros Hmap Hshort. unfold returned.
  rewrite getPixelData_geometric by done. simpl.
  rewrite (refine_exact _ _ (forallb (y_inside lowY highY)) _ lines);
    [done | done |].
  intros line Hline%list_elem_of_In. apply brushFilter_y.
  by apply (proj1 (forallb_forall short lines) Hshort).
Qed.

Lemma brush_y_is_y_test_witness :
  returned (getPixelData None (fun a => a) (BrushY (ofZ 0) (ofZ 10)) None)
           sample_tree
  = Ok [].
Proof.
  apply (brush_y_is_y_test None (fun a => a) sample_tree (ofZ 0) (ofZ 10)
           None [sample_line]);
    vm_compute; reflexivity.
Defined.

(** ** When the angular query returns *)

Lemma scan_ang_total atan (n : nat) (line : Line) (angMin angMax : num) (i : Z) :
  0 <= i -> i + Z.of_nat n < Z.of_nat (length line) ->
  exists b, scan_ang atan n line angMin angMax i = Ok b.
Proof.
  revert i. induction n as [|n IH]; intros i Hi Hn; simpl; [by eauto|].
  destruct (at_is_Some line (i + 1)) as [b ->]; [lia|].
  destruct (at_is_Some line i) as [a ->]; [lia|]. simpl.
  destruct (nlt _ angMin || ngt _ angMax); [by eauto|].
  apply IH; lia.
Qed.

Lemma boundary_ang_total atan (line : Line) (ia ib : Z) (angMin angMax : num) :
  0 <= ia < Z.of_nat (length line) -> 0 <= ib < Z.of_nat (length line) ->
  exists b, boundary_ang atan line ia ib angMin angMax = Ok b.
Proof.
  intros Hi Hj. unfold boundary_ang.
  destruct (at_is_Some line ib Hj) as [b ->].
  destruct (at_is_Some line ia Hi) as [a ->]. simpl. eauto.
Qed.

Lemma angularFilter_total atan (line : Line) (minX angMin maxX angMax : num) :
  short line = true -> line <> [] ->
  exists b, angularFilter atan line minX angMin maxX angMax = Ok b.
Proof.
  intros Hshort Hne. unfold angularFilter.
  assert (Hlen : 0 < Z.of_nat (length line)) by (destruct line; [done | simpl; lia]).
  destruct (at_is_Some line 0) as [first ->]; [lia|]. simpl.
  destruct (ngt (Fin (px first)) maxX); [by eauto|].
  destruct (at_is_Some line (Z.of_nat (length line) - 1)) as [last ->]; [lia|].
  simpl. destruct (nlt (Fin (px last)) minX); [by eauto|].
  destruct (find_lp_total line Hshort minX) as (lp & -> & Hlp).
  destruct (find_rp_total line Hshort maxX) as (rp & -> & Hrp). simpl.
  destruct (scan_ang_total atan (Z.to_nat (rp - lp)) line angMin angMax lp)
    as [[] ->]; [lia | lia | | simpl; by eauto]. simpl.
  destruct (Z.eqb_spec lp 0) as [->|Hlp0]; simpl.
  - destruct (Z.ltb_spec rp (Z.of_nat (length line) - 1)); [|by eauto].
    apply boundary_ang_total; lia.
  - destruct (boundary_ang_total atan line lp (lp - 1) angMin angMax)
      as [[] ->]; [lia | lia | | simpl; by eauto]. simpl.
    destruct (Z.ltb_spec rp (Z.of_nat (length line) - 1)); [|by eauto].
    apply boundary_ang_total; lia.
Qed.

(** X7. An angular query returns when every candidate of the index is a
    position of the raw data and holds at least one point and at most
    2^30 points; what it returns is then a selection of the candidates'
    lines, in the order of the index. *)
Theorem angular_query_returns mix atan (lowX lowSlope highX highSlope : num)
    (filter : option (Line -> bool)) (t : AliTVSTree) (lines : list Line) :
  mapR (fun id => deref (_raw t !! id))
       (angular (_kdtree t) (lowX, lowSlope) (highX, highSlope)) = Ok lines ->
  forallb (fun line => short line && negb (Nat.eqb (length line) 0)) lines
    = true ->
  exists b : Line -> bool,
    returned (getPixelData mix atan
                (AngularOpt lowX lowSlope highX highSlope) filter) t
    = Ok (post filter (List.filter b lines)).
Proof.
  intros Hmap Hfit. unfold returned. rewrite getPixelData_Angular.
  set (b := fun line =>
              match angularFilter atan line lowX lowSlope highX highSlope with
              | Ok true => true
              | _ => false
              end).
  exists b. simpl. rewrite (refine_exact _ _ b _ lines); [done | done |].
  intros line Hline%list_elem_of_In.
  apply (proj1 (forallb_forall _ lines) Hfit) in Hline.
  apply andb_prop in Hline as [Hshort Hne].
  destruct (angularFilter_total atan line lowX lowSlope highX highSlope)
    as [c Hc]; [done | by destruct line |].
  unfold b. rewrite Hc. by destruct c.
Qed.

Lemma angular_query_returns_witness :
  exists b : Line -> bool,
    returned (getPixelData None (fun a => a)
                (AngularOpt (ofZ 9) (ofZ (-1)) (ofZ 15) (ofZ 3)) None)
             sample_tree
    = Ok (post None (List.filter b [sample_line])).
Proof.
  apply (angular_query_returns None (fun a => a)
           (ofZ 9) (ofZ (-1)) (ofZ 15) (ofZ 3) None
           sample_tree [sample_line]);
    vm_compute; reflexivity.
Defined.

(** ** The short-circuit of the angular case *)

Lemma angularFilter_extent atan (line : Line) (minX angMin maxX angMax : num) :
  angularFilter atan line minX angMin maxX angMax = Ok true ->
  exists first last,
    line !! 0%nat = Some first
    /\ line !! (length line - 1)%nat = Some last
    /\ ngt (Fin (px first)) maxX = false
    /\ nlt (Fin (px last)) minX = false.
Proof.
  unfold angularFilter.
  destruct (at_ line 0) as [first|] eqn:Hfirst; simpl; [|done].
  destruct (ngt (Fin (px first)) maxX) eqn:Hgt; [done|].
  destruct (at_ line (Z.of_nat (length line) - 1)) as [last|] eqn:Hlast;
    simpl; [|done].
  destruct (nlt (Fin (px last)) minX) eqn:Hlt; [done|].
  intros _. exists first, last.
  apply at_Some in Hfirst as [_ Hfirst]. apply at_Some in Hlast as [? Hlast].
  replace (Z.to_nat (Z.of_nat (length line) - 1)) with (length line - 1)%nat
    in Hlast by lia.
  done.
Qed.

(** X8. Every line that an angular query returns has a first and a last
    point, the first not right of the window ([x > highX] is false) and
    the last not left of it ([x < lowX] is false). *)
Theorem angular_results_meet_window mix atan (t : AliTVSTree)
    (lowX lowSlope highX highSlope : num) (filter : option (Line -> bool))
    (res : list Line) (k : nat) (line : Line) :
  returned (getPixelData mix atan
              (AngularOpt lowX lowSlope highX highSlope) filter) t
    = Ok res ->
  res !! k = Some line ->
  exists first last,
    line !! 0%nat = Some first
    /\ line !! (length line - 1)%nat = Some last
    /\ ngt (Fin (px first)) highX = false
    /\ nlt (Fin (px last)) lowX = false.
Proof.
  unfold returned. rewrite getPixelData_Angular. simpl.
  destruct (refine _ _ _) as [resultData|] eqn:Href; simpl; [|done].
  intros [= <-] Hline%list_elem_of_lookup_2%post_elem.
  destruct (refine_elem _ _ _ _ _ Href Hline) as [Hacc _].
  by apply angularFilter_extent in Hacc.
Qed.

Lemma angular_results_meet_window_witness :
  exists first last,
    sample_line !! 0%nat = Some first
    /\ sample_line !! (length sample_line - 1)%nat = Some last
    /\ ngt (Fin (px first)) (ofZ 15) = false
    /\ nlt (Fin (px last)) (ofZ 9) = false.
Proof.
  apply (angular_results_meet_window None (fun a => a) sample_tree
           (ofZ 9) (ofZ (-1)) (ofZ 15) (ofZ 3) None
           [sample_line] 0%nat sample_line);
    vm_compute; reflexivity.
Defined.

(** ** The two point queries *)

(** X9. [getHoverLines] always returns: the position it was given, and one
    entry for each of the first [topN] hits of the radius query (all but
    the last [-topN] of them when [topN] is negative), in their order; the
    entry of a hit is its raw line, or [undefined] when the hit is no
    position of the raw data. *)
Theorem getHoverLines_takes_first_hits (x y r : num) (topN : Z)
    (t : AliTVSTree) :
  let hits := rnn (_kdtree t) (x, y) r in
  exists h,
    returned (getHoverLines x y r topN) t = Ok h
    /\ hover_position h = (x, y)
    /\ Z.of_nat (length (hover_data h))
       = (if 0 <=? topN then Z.min topN (Z.of_nat (length hits))
          else Z.max 0 (Z.of_nat (length hits) + topN))
    /\ forall k entry,
         hover_data h !! k = Some entry ->
         exists id, hits !! k = Some id /\ entry = _raw t !! id.
Proof.
  simpl. unfold returned, getHoverLines, bind, read, lift, ret. simpl.
  eexists. split; [done|]. simpl. split; [done|]. split.
  - rewrite length_map. unfold slice0.
    destruct (Z.leb_spec 0 topN); rewrite length_take; lia.
  - intros k entry Hk. rewrite list_lookup_fmap in Hk.
    destruct (slice0 _ topN !! k) as [id|] eqn:Hid; simpl in Hk; [|done].
    injection Hk as <-. exists id. split; [|done].
    unfold slice0 in Hid.
    destruct (0 <=? topN); by apply lookup_take_Some in Hid as [? _].
Qed.

(** X10. On an instance as the constructor builds it, what [getCrossPoints]
    returns is about one line only, the raw line of the first hit of the
    nearest-neighbour query: [data] is that line, [dataToPoint] is the
    pixel line that the constructor gave to the index for it, and
    [position] is the closest point computed on that pixel line. *)
Theorem getCrossPoints_agrees_with_constructor new_KDTree gcp
    (d : list Line) (xField yField : string) (xScale yScale : Scale)
    (x y : num) (out : CrossPoints) :
  let t := constructor new_KDTree d xField yField xScale yScale in
  returned (getCrossPoints gcp x y) t = Ok out ->
  exists hit,
    at_ (knn (_kdtree t) (x, y) 1) 0 = Some hit
    /\ d !! hit_id hit = Some (data out)
    /\ map (map (toPixel xScale yScale xField yField)) d !! hit_id hit
       = Some (dataToPoint out)
    /\ position out = gcp (x, y) (dataToPoint out).
Proof.
  simpl. unfold returned, getCrossPoints, bind, read, lift, ret. simpl.
  destruct (at_ (knn _ (x, y) 1) 0) as [hit|]; simpl; [|done].
  match goal with
  | |- context [?l !! hit_id hit] =>
      destruct (l !! hit_id hit) as [line|] eqn:Hline; simpl; [|done]
  end.
  intros [= <-]. exists hit. simpl. split_and!; try done.
  rewrite list_lookup_fmap. simpl in Hline. unfold Line in *.
  by rewrite Hline.
Qed.

Lemma getCrossPoints_agrees_with_constructor_witness :
  exists hit,
    at_ (knn sample_index (ofZ 3, ofZ 4) 1) 0 = Some hit
    /\ [sample_line] !! hit_id hit = Some sample_line
    /\ map (map (toPixel sample_scale sample_scale "x" "y")) [sample_line]
         !! hit_id hit
       = Some [(NaN, NaN); (NaN, NaN); (NaN, NaN)]
    /\ (ofZ 0, ofZ 5) = (ofZ 0, ofZ 5).
Proof.
  apply (getCrossPoints_agrees_with_constructor
           (fun _ => sample_index) (fun _ _ => (ofZ 0, ofZ 5))
           [sample_line] "x" "y" sample_scale sample_scale (ofZ 3) (ofZ 4)
           {| position := (ofZ 0, ofZ 5); data := sample_line;
              dataToPoint := [(NaN, NaN); (NaN, NaN); (NaN, NaN)] |}).
  vm_compute. reflexivity.
Defined.

(** ** More on the rasterizer *)

(** X11. [render] changes nothing of the instance but the accumulator
    cache: the raw data, the index, the two scales and the two field names
    are after the call what they were before it, whether it returns or
    throws. *)
Theorem render_frame brensenhamArr (colormap : num -> Color)
    (normalize : bool) (indices : option (list nat)) (t : AliTVSTree) :
  let t' := after (render brensenhamArr colormap normalize indices) t in
  _raw t' = _raw t /\ _kdtree t' = _kdtree t
  /\ _xScale t' = _xScale t /\ _yScale t' = _yScale t
  /\ _xField t' = _xField t /\ _yField t' = _yField t.
Proof.
  simpl. unfold after.
  destruct (dims t) as [[width height]|e] eqn:Hdims;
    [|by rewrite (render_no_dims _ _ _ _ _ _ Hdims)].
  destruct (_slopePixelCache t) as [cache|] eqn:Hcache.
  - by rewrite (render_cached _ _ _ _ _ _ _ _ Hcache Hdims).
  - destruct (new_cache width height) as [c0|e] eqn:Hnew.
    + by rewrite (render_fresh _ _ _ _ _ _ _ _ Hcache Hdims Hnew).
    + by rewrite (render_fresh_fail _ _ _ _ _ _ _ _ Hcache Hdims Hnew).
Qed.

Lemma dims_with_cache (t : AliTVSTree) (cache : Cache) :
  dims (with_cache t cache) = dims t.
Proof. done. Qed.


(** *** When [render] returns *)

Lemma mapR_total {A B} (f : A -> result B) (l : list A) :
  (forall a, a ∈ l -> exists b, f a = Ok b) ->
  exists r, mapR f l = Ok r.
Proof.
  induction l as [|a l IH]; intros H; simpl; [by eauto|].
  destruct (H a) as [b ->]; [apply list_elem_of_here|].
  destruct IH as [r ->]; [|simpl; by eauto].
  intros a' Ha'. apply H. by apply list_elem_of_further.
Qed.

Lemma mapR_throws {A B} (f : A -> result B) (l : list A) (e : error) (a : A) :
  (forall a', (exists b, f a' = Ok b) \/ f a' = Throw e) ->
  a ∈ l -> f a = Throw e ->
  mapR f l = Throw e.
Proof.
  intros Huni Ha Hfa. induction l as [|c l IH]; [by apply not_elem_of_nil in Ha|].
  simpl. apply elem_of_cons in Ha as [->|Ha].
  - by rewrite Hfa.
  - destruct (Huni c) as [[b ->]| ->]; [|done]. simpl. by rewrite (IH Ha).
Qed.

Lemma has_dims_spec (cache : Cache) (width height : Z) :
  has_dims cache width height = true ->
  Z.of_nat (length cache) = width
  /\ forall col column, at_ cache col = Some column ->
                        Z.of_nat (length column) = height.
Proof.
  unfold has_dims. intros [Hw%Z.eqb_eq Hall]%andb_prop. split; [done|].
  intros col column [_ Hcol%list_elem_of_lookup_2%list_elem_of_In]%at_Some.
  by apply Z.eqb_eq, (proj1 (forallb_forall _ cache) Hall).
Qed.

Lemma pixel_index (width height i : Z) :
  0 <= width -> 0 <= i < width * height ->
  0 < height /\ 0 <= i / height < width /\ 0 <= Z.rem i height < height.
Proof.
  intros Hw Hi. assert (0 < height) by nia. split; [done|]. split.
  - split; [apply Z.div_pos; lia | apply Z.div_lt_upper_bound; nia].
  - apply Z.rem_bound_pos; lia.
Qed.

Lemma tempBuffer_total (cache : Cache) (cw ch width height : Z)
    (normalize : bool) (ids : list nat) :
  has_dims cache cw ch = true -> 0 <= width <= cw -> height <= ch ->
  exists buf, tempBuffer cache width height normalize ids = Ok buf
              /\ length buf = Z.to_nat (width * height).
Proof.
  intros [Hcw Hch]%has_dims_spec Hw Hh. unfold tempBuffer.
  destruct (mapR_total
              (fun i =>
                 let row := Z.rem i height in
                 let col := i / height in
                 let* column := deref (at_ cache col) in
                 let* pixelCache := deref (at_ column row) in
                 Ok (weight normalize ids pixelCache))
              (seqZ 0 (width * height))) as [buf Hbuf].
  - intros i [Hi0 Hi]%elem_of_seqZ. cbv zeta.
    destruct (pixel_index width height i) as (Hpos & Hcol & Hrow); [lia | lia |].
    destruct (at_is_Some cache (i / height)) as [column Hcolumn]; [lia|].
    rewrite Hcolumn. simpl.
    destruct (at_is_Some column (Z.rem i height)) as [cell ->];
      [rewrite (Hch _ _ Hcolumn); lia|].
    simpl. by eauto.
  - exists buf. split; [done|].
    apply mapR_length in Hbuf. by rewrite Hbuf, length_seqZ.
Qed.

Section PaintTotal.

Variable colormap : num -> Color.
Variable buf : list num.
Variable maxW : num.
Variable width height : Z.

Lemma paint_returns (i j : Z) (st : ColorCache * list Z) :
  0 <= i < width -> 0 <= j < height ->
  length st.2 = Z.to_nat (width * height * 4) ->
  exists st', paint colormap buf maxW width height i j st = Ok st'
              /\ length st'.2 = length st.2.
Proof.
  destruct st as [cc img]. simpl. intros Hi Hj Hlen. unfold paint.
  set (ratio := ratio_at buf maxW height i j).
  assert (Hget : exists c,
             cc_get match cc_get cc ratio with
                    | Some _ => cc
                    | None => (ratio, colormap (ndiv ratio (ofZ 10000))) :: cc
                    end ratio = Some c).
  { destruct (cc_get cc ratio) as [c|] eqn:E; [by eauto|].
    simpl. rewrite num_eqb_refl. by eauto. }
  destruct Hget as [c ->]. simpl.
  pose proof (offset_bound width height i j Hi Hj) as [Hlo Hhi].
  unfold set3. rewrite Hlen.
  destruct (Z.leb_spec 0 ((j * width + i) * 4)); [|lia].
  destruct (Z.leb_spec ((j * width + i) * 4 + 3)
              (Z.of_nat (Z.to_nat (width * height * 4)))); [|lia].
  simpl. eexists. split; [done|]. simpl. unfold store.
  destruct (_ <? 0); by rewrite !length_insert.
Qed.

Lemma inner_loop_returns (i0 : Z) (n : nat) (j0 : Z) (st : ColorCache * list Z) :
  0 <= i0 < width -> 0 <= j0 -> j0 + Z.of_nat n <= height ->
  length st.2 = Z.to_nat (width * height * 4) ->
  exists st',
    foldR (paint colormap buf maxW width height i0) (seqZ j0 (Z.of_nat n)) st
    = Ok st'
    /\ length st'.2 = Z.to_nat (width * height * 4).
Proof.
  intros Hi0. revert j0 st.
  induction n as [|n IH]; intros j0 st Hj0 Hn Hlen; [by exists st|].
  rewrite seqZ_cons by lia.
  replace (Z.pred (Z.of_nat (S n))) with (Z.of_nat n) by lia. simpl.
  destruct (paint_returns i0 j0 st) as (st1 & -> & Hlen1); [lia | lia | done |].
  simpl. apply IH; [lia | lia | by rewrite Hlen1].
Qed.

Lemma outer_loop_returns (n : nat) (i0 : Z) (st : ColorCache * list Z) :
  0 <= height -> 0 <= i0 -> i0 + Z.of_nat n <= width ->
  length st.2 = Z.to_nat (width * height * 4) ->
  exists st',
    foldR (fun i st =>
             foldR (paint colormap buf maxW width height i) (seqZ 0 height) st)
          (seqZ i0 (Z.of_nat n)) st
    = Ok st'
    /\ length st'.2 = Z.to_nat (width * height * 4).
Proof.
  intros Hh. revert i0 st.
  induction n as [|n IH]; intros i0 st Hi0 Hn Hlen; [by exists st|].
  rewrite (seqZ_cons i0) by lia.
  replace (Z.pred (Z.of_nat (S n))) with (Z.of_nat n) by lia. simpl.
  pose proof (inner_loop_returns i0 (Z.to_nat height) 0 st) as Hinner.
  rewrite Z2Nat.id in Hinner by done.
  destruct Hinner as (st1 & -> & Hlen1); [lia | lia | lia | done |].
  simpl. apply IH; [lia | lia | done].
Qed.

Lemma paint_all_returns :
  0 <= width -> 0 <= height ->
  exists st, paint_all colormap buf maxW width height = Ok st
             /\ length st.2 = Z.to_nat (width * height * 4).
Proof.
  intros Hw Hh. unfold paint_all.
  pose proof (outer_loop_returns (Z.to_nat width) 0
                ([], replicate (Z.to_nat (width * height * 4)) 0)) as Hout.
  rewrite Z2Nat.id in Hout by done.
  apply Hout; [done | lia | lia |]. simpl. by rewrite length_replicate.
Qed.

End PaintTotal.

Lemma draw_returns (colormap : num -> Color) (cache : Cache)
    (cw ch width height : Z) (normalize : bool) (ids : list nat) :
  has_dims cache cw ch = true ->
  0 < width <= cw -> 0 < height <= ch ->
  exists out,
    draw colormap cache width height normalize ids = Ok out
    /\ length (image out) = Z.to_nat (width * height * 4).
Proof.
  intros Hdims Hw Hh. unfold draw.
  destruct (tempBuffer_total cache cw ch width height normalize ids)
    as (buf & -> & Hlen); [done | lia | lia |]. simpl.
  destruct buf as [|w0 rest]; [simpl in Hlen; nia|]. simpl.
  destruct (paint_all_returns colormap (w0 :: rest)
              (nceil (fold_left nmax rest w0)) width height)
    as (st & -> & Hst); [lia | lia |].
  simpl. by eauto.
Qed.

(** X13. On an instance that holds an accumulator, [render] returns
    whenever the surface is not empty and not larger than the accumulator
    in either direction, with an image of 4 bytes for each pixel of the
    surface. *)
Theorem render_returns_within_cache brensenhamArr (colormap : num -> Color)
    (normalize : bool) (indices : option (list nat)) (t : AliTVSTree)
    (cache : Cache) (cw ch width height : Z) :
  _slopePixelCache t = Some cache ->
  has_dims cache cw ch = true ->
  dims t = Ok (width, height) ->
  0 < width <= cw -> 0 < height <= ch ->
  exists out,
    returned (render brensenhamArr colormap normalize indices) t = Ok out
    /\ length (image out) = Z.to_nat (width * height * 4).
Proof.
  intros Hcache Hdims Hwh Hw Hh. unfold returned.
  rewrite (render_cached _ _ _ _ _ _ _ _ Hcache Hwh). simpl.
  by apply (draw_returns _ _ cw ch).
Qed.

Lemma render_returns_within_cache_witness :
  exists out,
    returned (render draw_nothing red_ramp true (Some [0%nat])) faint_tree
    = Ok out
    /\ length (image out) = Z.to_nat (1 * 2 * 4).
Proof.
  apply (render_returns_within_cache draw_nothing red_ramp true
           (Some [0%nat]) faint_tree faint_cache 1 2 1 2);
    (reflexivity || lia).
Defined.

Lemma new_cache_returns (width height : Z) :
  0 <= width < 2 ^ 32 -> 0 <= height < 2 ^ 32 ->
  exists cache, new_cache width height = Ok cache.
Proof.
  intros Hw Hh. unfold new_cache, new_Array.
  destruct (Z.leb_spec 0 width); [|lia].
  destruct (Z.ltb_spec width (2 ^ 32)); [|lia]. simpl.
  apply mapR_total. intros _ _.
  destruct (Z.leb_spec 0 height); [|lia].
  destruct (Z.ltb_spec height (2 ^ 32)); [|lia]. simpl. by eauto.
Qed.

(** X14. The first [render] of an instance returns on a surface of at
    least one pixel and at most 2^20 pixels, given a line drawer that adds
    or removes no column and no cell; the image has 4 bytes for each pixel
    of the surface.  (The bound keeps the surface within what the typed
    arrays of lines 428 and 445 can be allocated for.) *)
Theorem first_render_returns brensenhamArr (colormap : num -> Color)
    (normalize : bool) (indices : option (list nat)) (t : AliTVSTree)
    (width height : Z) :
  (forall segment cache id k w h,
     has_dims cache w h = true ->
     has_dims (brensenhamArr segment cache id k) w h = true) ->
  _slopePixelCache t = None ->
  dims t = Ok (width, height) ->
  0 < width -> 0 < height -> width * height <= 2 ^ 20 ->
  exists out,
    returned (render brensenhamArr colormap normalize indices) t = Ok out
    /\ length (image out) = Z.to_nat (width * height * 4).
Proof.
  intros Hbrens Hcache Hdims Hw Hh Hsize. unfold returned.
  destruct (new_cache_returns width height) as [c0 Hnew]; [nia | nia |].
  rewrite (render_fresh _ _ _ _ _ _ _ _ Hcache Hdims Hnew). simpl.
  apply (draw_returns _ _ width height); [|lia | lia].
  apply stamp_all_dims; [done|]. by apply new_cache_dims.
Qed.

Lemma first_render_returns_witness :
  exists out,
    returned (render draw_nothing red_ramp false None) sample_tree = Ok out
    /\ length (image out) = Z.to_nat (2 * 2 * 4).
Proof.
  apply (first_render_returns draw_nothing red_ramp false None sample_tree
           2 2 (fun _ _ _ _ _ _ H => H));
    (reflexivity || lia).
Defined.

(** *** When [render] throws *)

Lemma tempBuffer_throws (cache : Cache) (cw ch width height : Z)
    (normalize : bool) (ids : list nat) :
  has_dims cache cw ch = true ->
  0 < width -> 0 < height -> cw < width \/ ch < height ->
  tempBuffer cache width height normalize ids = Throw TypeError.
Proof.
  intros [Hcw Hch]%has_dims_spec Hw Hh Hlarger. unfold tempBuffer.
  assert (Huni : forall i,
             (exists b,
                 (let row := Z.rem i height in
                  let col := i / height in
                  let* column := deref (at_ cache col) in
                  let* pixelCache := deref (at_ column row) in
                  Ok (weight normalize ids pixelCache)) = Ok b)
             \/ (let row := Z.rem i height in
                 let col := i / height in
                 let* column := deref (at_ cache col) in
                 let* pixelCache := deref (at_ column row) in
                 Ok (weight normalize ids pixelCache)) = Throw TypeError).
  { intros i. cbv zeta.
    destruct (at_ cache (i / height)) as [column|]; simpl; [|by right].
    destruct (at_ column (Z.rem i height)); simpl; [left; by eauto | by right]. }
  assert (0 <= cw) by lia.
  destruct (Z.lt_ge_cases cw width) as [Hwide|Hnarrow].
  - apply (mapR_throws _ _ _ (cw * height) Huni).
    + apply elem_of_seqZ. nia.
    + cbv zeta. rewrite Z.div_mul by lia.
      destruct (at_ cache cw) as [column|] eqn:E; [|done].
      apply at_lt in E. lia.
  - destruct Hlarger as [?|Htall]; [lia|].
    destruct (at_is_Some cache 0) as [column Hcolumn]; [lia|].
    pose proof (Hch _ _ Hcolumn) as Hcolumn_length.
    apply (mapR_throws _ _ _ ch Huni).
    + apply elem_of_seqZ. nia.
    + cbv zeta. rewrite Z.div_small, Z.rem_small by lia.
      rewrite Hcolumn. simpl.
      destruct (at_ column ch) as [cell|] eqn:E; [|done].
      apply at_lt in E. rewrite (Hch _ _ Hcolumn) in E. lia.
Qed.

(** X15. Once an instance holds an accumulator, [render] does not return
    on a surface wider or higher than the accumulator: it throws.  On a
    surface of at most 2^20 pixels the error is a [TypeError]: the
    accumulator is read beyond its columns or cells, not rebuilt.  (On a
    surface for which the weight buffer of line 428 cannot be allocated
    the error is that of the allocation, which the embedding does not
    tell apart.) *)
Theorem render_larger_surface_throws brensenhamArr (colormap : num -> Color)
    (normalize : bool) (indices : option (list nat)) (t : AliTVSTree)
    (cache : Cache) (cw ch width height : Z) :
  _slopePixelCache t = Some cache ->
  has_dims cache cw ch = true ->
  dims t = Ok (width, height) ->
  0 < width -> 0 < height -> cw < width \/ ch < height ->
  exists e,
    returned (render brensenhamArr colormap normalize indices) t = Throw e
    /\ (width * height <= 2 ^ 20 -> e = TypeError).
Proof.
  intros Hcache Hdims Hwh Hw Hh Hlarger. unfold returned.
  rewrite (render_cached _ _ _ _ _ _ _ _ Hcache Hwh). simpl. unfold draw.
  rewrite (tempBuffer_throws cache cw ch) by done. by exists TypeError.
Qed.

Lemma render_larger_surface_throws_witness :
  exists e,
    returned (render draw_nothing red_ramp false None)
             (resize faint_tree [0; 3] [0; 2])
    = Throw e
    /\ (3 * 2 <= 2 ^ 20 -> e = TypeError).
Proof.
  apply (render_larger_surface_throws draw_nothing red_ramp false None
           (resize faint_tree [0; 3] [0; 2]) faint_cache 1 2 3 2);
    (reflexivity || lia).
Defined.

(** X16. [render] never returns on a surface without pixels (a width or
    a height of 0): the [reduce] that computes the maximum has no initial
    value and the weight buffer is empty. *)
Theorem render_empty_surface_throws brensenhamArr (colormap : num -> Color)
    (normalize : bool) (indices : option (list nat)) (t : AliTVSTree)
    (width height : Z) :
  dims t = Ok (width, height) -> width * height = 0 ->
  exists e,
    returned (render brensenhamArr colormap normalize indices) t = Throw e.
Proof.
  intros Hdims Hzero. unfold returned.
  assert (Hdraw : forall cache ids,
             draw colormap cache width height normalize ids = Throw TypeError).
  { intros cache ids. unfold draw, tempBuffer. by rewrite Hzero. }
  destruct (_slopePixelCache t) as [cache|] eqn:Hcache.
  - rewrite (render_cached _ _ _ _ _ _ _ _ Hcache Hdims). simpl.
    rewrite Hdraw. by eauto.
  - destruct (new_cache width height) as [c0|e] eqn:Hnew.
    + rewrite (render_fresh _ _ _ _ _ _ _ _ Hcache Hdims Hnew). simpl.
      rewrite Hdraw. by eauto.
    + rewrite (render_fresh_fail _ _ _ _ _ _ _ _ Hcache Hdims Hnew). simpl.
      by eauto.
Qed.

Lemma render_empty_surface_throws_witness :
  exists e,
    returned (render draw_nothing red_ramp false None)
             (resize sample_tree [5; 5] [0; 2])
    = Throw e.
Proof.
  apply (render_empty_surface_throws draw_nothing red_ramp false None
           (resize sample_tree [5; 5] [0; 2]) 0 2);
    reflexivity.
Defined.

(** *** An empty selection *)

Lemma weight_nil (normalize : bool) (pixelCache : Cell) :
  weight normalize [] pixelCache = ofZ 0.
Proof.
  unfold weight, fastMapping.
  destruct normalize; induction pixelCache as [|[id v] cell IH]; simpl;
    try done; by rewrite bool_decide_eq_false_2 by apply not_elem_of_nil.
Qed.

Lemma fold_nmax_zeros (rest : list num) :
  (forall w, w ∈ rest -> w = ofZ 0) -> fold_left nmax rest (ofZ 0) = ofZ 0.
Proof.
  induction rest as [|w rest IH]; intros H; simpl; [done|].
  rewrite (H w) by apply list_elem_of_here.
  change (nmax (ofZ 0) (ofZ 0)) with (ofZ 0).
  apply IH. intros w' Hw'. apply H. by apply list_elem_of_further.
Qed.

Lemma draw_nothing_selected (colormap : num -> Color) (cache : Cache)
    (width height : Z) (normalize : bool) (out : RenderOut) :
  0 <= width -> 0 <= height ->
  draw colormap cache width height normalize [] = Ok out ->
  maxWeight out = ofZ 0
  /\ forall i j, 0 <= i < width -> 0 <= j < height ->
       let k := Z.to_nat ((j * width + i) * 4) in
       image out !! k = Some (clamp8 (colormap NaN).1.1)
       /\ image out !! (k + 1)%nat = Some (clamp8 (colormap NaN).1.2)
       /\ image out !! (k + 2)%nat = Some (clamp8 (colormap NaN).2)
       /\ image out !! (k + 3)%nat = Some 255.
Proof.
  intros Hw Hh. unfold draw.
  destruct (tempBuffer cache width height normalize []) as [buf|] eqn:Hbuf;
    simpl; [|done].
  assert (Hzero : forall w, w ∈ buf -> w = ofZ 0).
  { intros w [k Hk]%list_elem_of_lookup_1.
    destruct (mapR_lookup _ _ _ _ _ Hbuf Hk) as (n & _ & Hn). cbv zeta in Hn.
    destruct (at_ cache (n / height)) as [column|]; simpl in Hn; [|done].
    destruct (at_ column (Z.rem n height)) as [cell|]; simpl in Hn; [|done].
    injection Hn as <-. apply weight_nil. }
  destruct buf as [|w0 rest] eqn:Ebuf; simpl; [done|].
  rewrite (Hzero w0) by apply list_elem_of_here.
  rewrite fold_nmax_zeros
    by (intros w Hw0; apply Hzero; by apply list_elem_of_further).
  change (nceil (ofZ 0)) with (ofZ 0).
  destruct (paint_all _ _ _ _ _) as [st|] eqn:Hpaint; simpl; [|done].
  intros [= <-]. simpl. split; [done|].
  destruct (paint_all_spec _ _ _ _ _ st Hw Hh Hpaint) as [_ Hpix].
  intros i j Hi Hj.
  pose proof (Hpix i j Hi Hj) as Hok. unfold pixel_ok, ratio_at, offset in Hok.
  destruct (at_is_Some (ofZ 0 :: rest) (i * height + j)) as [wgt Hwgt].
  { unfold tempBuffer in Hbuf. apply mapR_length in Hbuf.
    rewrite length_seqZ in Hbuf.
    assert (length (ofZ 0 :: rest) = length (w0 :: rest)) as -> by done.
    rewrite Hbuf. nia. }
  rewrite Hwgt in Hok.
  assert (wgt = ofZ 0) as ->.
  { apply at_Some in Hwgt as [_ Hwgt%list_elem_of_lookup_2].
    apply elem_of_cons in Hwgt as [->|Hwgt]; [done|].
    apply Hzero. by apply list_elem_of_further. }
  exact Hok.
Qed.

(** X17. With an empty selection of lines ([indices] an empty array, not
    an omitted one) every weight is 0 and so is the maximum; the ratio of
    every pixel is then 0/0, and a [render] that returns has painted every
    pixel fully opaque, in the colour of the colormap at NaN. *)
Theorem render_nothing_selected_is_opaque brensenhamArr
    (colormap : num -> Color) (normalize : bool) (t : AliTVSTree)
    (out : RenderOut) :
  returned (render brensenhamArr colormap normalize (Some [])) t = Ok out ->
  maxWeight out = ofZ 0
  /\ exists width height,
       dims t = Ok (width, height)
       /\ forall i j, 0 <= i < width -> 0 <= j < height ->
            let k := Z.to_nat ((j * width + i) * 4) in
            image out !! k = Some (clamp8 (colormap NaN).1.1)
            /\ image out !! (k + 1)%nat = Some (clamp8 (colormap NaN).1.2)
            /\ image out !! (k + 2)%nat = Some (clamp8 (colormap NaN).2)
            /\ image out !! (k + 3)%nat = Some 255.
Proof.
  unfold returned.
  destruct (dims t) as [[width height]|e] eqn:Hdims;
    [|by rewrite (render_no_dims _ _ _ _ _ _ Hdims)].
  destruct (dims_nonneg t width height Hdims) as [Hw Hh].
  assert (Hgoal : forall cache,
             draw colormap cache width height normalize [] = Ok out ->
             maxWeight out = ofZ 0
             /\ exists width0 height0,
                  Ok (width, height) = Ok (width0, height0)
                  /\ forall i j, 0 <= i < width0 -> 0 <= j < height0 ->
                       let k := Z.to_nat ((j * width0 + i) * 4) in
                       image out !! k = Some (clamp8 (colormap NaN).1.1)
                       /\ image out !! (k + 1)%nat
                          = Some (clamp8 (colormap NaN).1.2)
                       /\ image out !! (k + 2)%nat
                          = Some (clamp8 (colormap NaN).2)
                       /\ image out !! (k + 3)%nat = Some 255).
  { intros cache Hdraw.
    destruct (draw_nothing_selected _ _ _ _ _ _ Hw Hh Hdraw) as [Hmax Hpix].
    split; [done|]. by exists width, height. }
  destruct (_slopePixelCache t) as [cache|] eqn:Hcache.
  - rewrite (render_cached _ _ _ _ _ _ _ _ Hcache Hdims). simpl. apply Hgoal.
  - destruct (new_cache width height) as [c0|e] eqn:Hnew;
      [|by rewrite (render_fresh_fail _ _ _ _ _ _ _ _ Hcache Hdims Hnew)].
    rewrite (render_fresh _ _ _ _ _ _ _ _ Hcache Hdims Hnew). simpl. apply Hgoal.
Qed.

Lemma render_nothing_selected_is_opaque_witness :
  maxWeight {| maxWeight := ofZ 0;
               image := [0; 0; 0; 255; 0; 0; 0; 255] |} = ofZ 0
  /\ exists width height,
       dims faint_tree = Ok (width, height)
       /\ forall i j, 0 <= i < width -> 0 <= j < height ->
            let k := Z.to_nat ((j * width + i) * 4) in
            image {| maxWeight := ofZ 0;
                     image := [0; 0; 0; 255; 0; 0; 0; 255] |} !! k
            = Some (clamp8 (red_ramp NaN).1.1)
            /\ image {| maxWeight := ofZ 0;
                        image := [0; 0; 0; 255; 0; 0; 0; 255] |} !! (k + 1)%nat
               = Some (clamp8 (red_ramp NaN).1.2)
            /\ image {| maxWeight := ofZ 0;
                        image := [0; 0; 0; 255; 0; 0; 0; 255] |} !! (k + 2)%nat
               = Some (clamp8 (red_ramp NaN).2)
            /\ image {| maxWeight := ofZ 0;
                        image := [0; 0; 0; 255; 0; 0; 0; 255] |} !! (k + 3)%nat
               = Some 255.
Proof.
  apply (render_nothing_selected_is_opaque draw_nothing red_ramp true
           faint_tree).
  vm_compute. reflexivity.
Defined.

(** *** Weights without normalization *)

Lemma nadd_ofZ (a b : Z) : nadd (ofZ a) (ofZ b) = ofZ (a + b).
Proof.
  unfold ofZ. simpl. f_equal. apply Qc_is_canon. simpl.
  rewrite !Qred_correct. by rewrite inject_Z_plus.
Qed.

(** X18. Without normalization the weight of a pixel is the number of its
    entries whose line is selected; the values stored with the entries
    play no part. *)
Theorem weight_is_count (ids : list nat) (pixelCache : Cell) :
  weight false ids pixelCache
  = ofZ (Z.of_nat
           (length (List.filter (fun entry => fastMapping ids entry.1)
                                pixelCache))).
Proof.
  unfold weight.
  assert (H : forall a,
             fold_left
               (fun p v => nadd p (if fastMapping ids v.1 then ofZ 1 else ofZ 0))
               pixelCache (ofZ a)
             = ofZ (a + Z.of_nat
                          (length (List.filter
                                     (fun entry => fastMapping ids entry.1)
                                     pixelCache)))).
  { induction pixelCache as [|[id v] cell IH]; intros a.
    - simpl. by rewrite Z.add_0_r.
    - cbn [fold_left List.filter fst].
      destruct (fastMapping ids id); rewrite nadd_ofZ, IH; f_equal;
        cbn [length]; lia. }
  apply (H 0).
Qed.

(** ** The attribute case and [getSelectedLines] *)

(** X19. The attribute query is [getSelectedLines] with the attribute test
    as its filter, followed by the post-filter: both go through the raw
    lines in their order and neither asks the index. *)
Theorem attr_query_is_selection mix atan (field : string)
    (values : list value) (filter : option (Line -> bool)) (t : AliTVSTree) :
  returned (getPixelData mix atan (AttrOpt field values) filter) t
  = (let* selected :=
       returned (getSelectedLines (Some (all_allowed field values))) t in
     Ok (post filter selected)).
Proof.
  unfold returned. by rewrite getPixelData_Attr.
Qed.
